(** * ambianic-edge: the TFImageDetection pipe element

    A shallow embedding of [src/ambianic/pipeline/ai/image_detection.py]:
    the label-map loader, the aspect-preserving thumbnailer, the padder,
    the timing statistics and the ranking loop of [detect], with the
    properties the specification states about them and further
    properties of the code.

    Conventions of the embedding.
    - Python [int] is [Z]; Python and numpy floating-point numbers are
      exact rationals [Q]: rounding, NaN, infinities and the division of
      a numpy float by zero are outside the model; the division of two
      Python floats in [_log_stats] raises on a zero divisor.
    - Text is a list of characters; a character stands for a Unicode
      code point below 256.
    - A raised exception is the [inl] of a sum; the code that mutates
      image objects runs in a state-and-exception monad over a store of
      image objects.
    - Pillow and numpy are libraries, and [TFInferenceEngine] is defined
      in a module that is not among the sources: what the detector calls
      in them is a parameter, and the part of the libraries' documented
      behaviour a proof relies on is stated as a contract. *)

From Stdlib Require Import ZArith QArith Qminmax List String Ascii Lia.
From Stdlib Require Import Permutation Sorted Lqa.
From stdpp Require Import gmap strings list.

Open Scope Z_scope.

(** ** Python values, exceptions and results *)

(** A value a desired-size dimension can have when it reaches the
    thumbnailer: a Python number or a numpy scalar (an instance of
    [np.generic]). *)
Inductive pyval :=
| PyInt (z : Z)
| PyFloat (q : Q)
| NpInt (z : Z)
| NpFloat (q : Q).

(** [type(v)], as the thumbnailer's error message prints it. *)
Inductive pytype := TyInt | TyFloat | TyNpInt | TyNpFloat.

Definition type_of (v : pyval) : pytype :=
  match v with
  | PyInt _ => TyInt
  | PyFloat _ => TyFloat
  | NpInt _ => TyNpInt
  | NpFloat _ => TyNpFloat
  end.

(** The exceptions the module can raise.  [RuntimeError] carries what the
    thumbnailer formats into its message: the desired size, [type(w)],
    [type(h)] and the exception it caught.  [UnicodeDecodeError] is what
    reading a file that is not valid UTF-8 raises.  [FormatError] is the
    failure the specification names for a malformed label line; no path
    of the source constructs it. *)
Inductive exn :=
| AssertionError
| AttributeError
| KeyError (key : Z)
| IndexError
| TypeError
| ValueError
| ZeroDivisionError
| OSError
| UnicodeDecodeError
| RuntimeError (desired_size : pyval * pyval) (type_w type_h : pytype) (cause : exn)
| FormatError.

Definition result (A : Type) : Type := (exn + A)%type.

Definition Ok {A} (a : A) : result A := inr a.
Definition Raise {A} (e : exn) : result A := inl e.

Definition rbind {A B} (r : result A) (k : A → result B) : result B :=
  match r with
  | inl e => inl e
  | inr a => k a
  end.

Declare Scope result_scope.
Delimit Scope result_scope with result.
Notation "x <- r ;; k" := (rbind r (λ x, k))
  (at level 100, r at next level, right associativity) : result_scope.

(** [assert b] *)
Definition py_assert (b : bool) : result unit :=
  if b then Ok tt else Raise AssertionError.

(** ** Python text *)

Definition text := list ascii.

Definition code_point (c : ascii) : N := N_of_ascii c.

(** [str.isspace] on one character, which is also the class [\s] of a
    [str] pattern: tab to carriage return, the four separators
    U+001C..U+001F, space, U+0085 and U+00A0. *)
Definition isspace (c : ascii) : bool :=
  let n := code_point c in
  ((9 <=? n) && (n <=? 13) || (28 <=? n) && (n <=? 32) || (n =? 133) || (n =? 160))%N.

(** The class [\d]: below 256 the decimal digits are "0" to "9". *)
Definition isdigit (c : ascii) : bool :=
  let n := code_point c in ((48 <=? n) && (n <=? 57))%N.

Definition newline : ascii := ascii_of_N 10.

(** The class [.] (without DOTALL): anything but a line feed. *)
Definition not_newline (c : ascii) : bool := negb (code_point c =? 10)%N.

(** [f.readlines()] on a file opened in text mode with the default
    [newline=None]: the content is cut after each line ending, and the
    endings "\r\n" and "\r" are handed over as "\n". *)
Fixpoint readlines (s : text) : list text :=
  match s with
  | [] => []
  | c :: s' =>
      if (code_point c =? 10)%N then [newline] :: readlines s'
      else if (code_point c =? 13)%N then
        match s' with
        | c' :: _ => if (code_point c' =? 10)%N then readlines s'
                     else [newline] :: readlines s'
        | [] => [[newline]]
        end
      else
        match readlines s' with
        | [] => [[c]]
        | l :: ls => (c :: l) :: ls
        end
  end.

(** [int(num)] on a string of decimal digits.  The limit that later
    interpreters put on the number of digits [int] accepts (4300 unless
    configured otherwise) is outside the model. *)
Definition digit_value (c : ascii) : Z := Z.of_N (code_point c) - 48.

Definition int_of_digits (num : text) : Z :=
  fold_left (λ acc c, 10 * acc + digit_value c) num 0.

(** [s.strip()] *)
Fixpoint lstrip (s : text) : text :=
  match s with
  | c :: s' => if isspace c then lstrip s' else s
  | [] => []
  end.

Definition rstrip (s : text) : text := rev (lstrip (rev s)).

Definition strip (s : text) : text := rstrip (lstrip s).

(** ** The pattern of [load_labels]

    A greedy quantifier over a character class, with backtracking as
    Python's [re] does it: take the longest run first and give characters
    back one at a time until the rest of the pattern, the continuation
    [k], matches.  [k taken rest] receives the characters the quantifier
    kept and what follows them. *)
Fixpoint re_star {A} (cls : ascii → bool) (s : text)
    (k : text → text → option A) : option A :=
  match s with
  | c :: s' =>
      if cls c then
        match re_star cls s' (λ taken rest, k (c :: taken) rest) with
        | Some r => Some r
        | None => k [] s
        end
      else k [] s
  | [] => k [] s
  end.

Definition re_plus {A} (cls : ascii → bool) (s : text)
    (k : text → text → option A) : option A :=
  match s with
  | c :: s' => if cls c then re_star cls s' (λ taken rest, k (c :: taken) rest) else None
  | [] => None
  end.

(** [re.compile(r'\s*(\d+)(.+)').match(line)]: [None] when the pattern
    does not match at the start of the line, the two groups otherwise. *)
Definition label_pattern_match (line : text) : option (text * text) :=
  re_star isspace line (λ _ rest1,
    re_plus isdigit rest1 (λ num rest2,
      re_plus not_newline rest2 (λ txt _, Some (num, txt)))).

(** ** load_labels (lines 46-64) *)

(** One step of the dict comprehension: [p.match(line).groups()] raises
    [AttributeError] when [p.match] returned [None]; otherwise the entry
    [int(num): text.strip()] is stored, replacing an earlier entry of the
    same key. *)
Definition load_label_line (m : gmap Z string) (line : text) : result (gmap Z string) :=
  match label_pattern_match line with
  | None => Raise AttributeError
  | Some (num, txt) =>
      Ok (<[int_of_digits num := string_of_list_ascii (strip txt)]> m)
  end.

Fixpoint load_label_lines (m : gmap Z string) (lines : list text) : result (gmap Z string) :=
  match lines with
  | [] => Ok m
  | line :: lines' => (m' <- load_label_line m line ;; load_label_lines m' lines')%result
  end.

(** A file that can be opened for reading: its bytes are the UTF-8
    encoding of a text, or they are not valid UTF-8. *)
Inductive file :=
| Decoded (content : text)
| Undecodable.

Section LoadLabels.

(** The files that can be opened for reading, by path. *)
Variable fs : string → option file.

(** [label_path] is [None] or a string; [assert label_path] rejects
    [None] and the empty string, [open] fails on a path that names no
    file that can be opened, and [f.readlines()] decodes the file as
    UTF-8 (line 62) before any line reaches the pattern. *)
Definition load_labels (label_path : option string) : result (gmap Z string) :=
  match label_path with
  | None => Raise AssertionError
  | Some path =>
      (checked <- py_assert (negb (String.eqb path "")) ;;
       match fs path with
       | None => Raise OSError
       | Some Undecodable => Raise UnicodeDecodeError
       | Some (Decoded content) => load_label_lines ∅ (readlines content)
       end)%result
  end.

End LoadLabels.

(** ** Python numbers *)

(** [int(x)] on a float: truncation towards zero. *)
Definition int_of_float (q : Q) : Z := Z.quot (Qnum q) (Z.pos (Qden q)).

(** [isinstance(v, np.generic)] *)
Definition is_np_generic (v : pyval) : bool :=
  match v with
  | NpInt _ | NpFloat _ => true
  | PyInt _ | PyFloat _ => false
  end.

(** [v.item()]: a numpy scalar gives the Python number of the same
    value; Python's own [int] and [float] have no such method. *)
Definition item (v : pyval) : result pyval :=
  match v with
  | NpInt z => Ok (PyInt z)
  | NpFloat q => Ok (PyFloat q)
  | PyInt _ | PyFloat _ => Raise AttributeError
  end.

(** [int(v)] *)
Definition py_int (v : pyval) : Z :=
  match v with
  | PyInt z | NpInt z => z
  | PyFloat q | NpFloat q => int_of_float q
  end.

(** [v - n] for an [int] [n]: the result keeps the kind of [v]. *)
Definition py_sub (v : pyval) (n : Z) : pyval :=
  match v with
  | PyInt z => PyInt (z - n)
  | NpInt z => NpInt (z - n)
  | PyFloat q => PyFloat (q - inject_Z n)
  | NpFloat q => NpFloat (q - inject_Z n)
  end.

(** [n == v] for an [int] [n]: equality of the values. *)
Definition py_eq_int (n : Z) (v : pyval) : bool :=
  match v with
  | PyInt z | NpInt z => n =? z
  | PyFloat q | NpFloat q => Qeq_bool (inject_Z n) q
  end.

(** [a / b] on two [int]s: true division. *)
Definition true_div (a b : Z) : result Q :=
  if b =? 0 then Raise ZeroDivisionError else Ok (inject_Z a / inject_Z b)%Q.

(** [min(a, b)]: [b] when [b < a], else [a]. *)
Definition py_min (a b : Q) : Q :=
  match (b ?= a)%Q with
  | Lt => b
  | _ => a
  end.

(** The bound of a slice, as Python normalises it against the length: a
    negative bound counts from the end, and the result is clipped to
    [0, n]. *)
Definition slice_bound (n : nat) (i : Z) : nat :=
  Z.to_nat (if i <? 0 then Z.max 0 (i + Z.of_nat n) else Z.min i (Z.of_nat n)).

(** [a[:stop]] and [a[start:]] *)
Definition py_slice_to {A} (stop : Z) (a : list A) : list A :=
  take (slice_bound (length a) stop) a.

Definition py_slice_from {A} (start : Z) (a : list A) : list A :=
  drop (slice_bound (length a) start) a.

(** [a[i]] on an array, for an index that is not negative. *)
Definition index {A} (a : list A) (i : nat) : result A :=
  match a !! i with
  | Some x => Ok x
  | None => Raise IndexError
  end.

(** [d[k]] on a dict *)
Definition dict_getitem (d : gmap Z string) (k : Z) : result string :=
  match d !! k with
  | Some v => Ok v
  | None => Raise (KeyError k)
  end.

(** ** Images and the store of image objects *)

(** A sample of an RGB image. *)
Definition pixel : Type := (Z * Z * Z)%type.

Definition black : pixel := (0, 0, 0).

(** The content of a PIL image object: [im_size] is its [size], (width,
    height), and [getpixel] gives its samples by column and row. *)
Record Image := {
  im_size : Z * Z;
  getpixel : Z → Z → pixel
}.

Definition width (im : Image) : Z := fst (im_size im).
Definition height (im : Image) : Z := snd (im_size im).

(** Image objects live in a store; a Python variable holds a reference. *)
Abbreviation ref := positive.
Abbreviation store := (gmap positive Image).

(** Computations that read and update the store and may raise. *)
Definition M (A : Type) : Type := store → result A * store.

Definition ret {A} (a : A) : M A := λ σ, (Ok a, σ).

Definition raise {A} (e : exn) : M A := λ σ, (Raise e, σ).

Definition bind {A B} (m : M A) (k : A → M B) : M B :=
  λ σ, match m σ with
       | (inl e, σ') => (inl e, σ')
       | (inr a, σ') => k a σ'
       end.

Definition lift {A} (r : result A) : M A := λ σ, (r, σ).

Declare Scope M_scope.
Delimit Scope M_scope with M.
Notation "x <~ m ;; k" := (bind m (λ x, k))
  (at level 100, m at next level, right associativity) : M_scope.

(** [assert x] on an optional argument: [None] is falsy; an image object
    and a pair are truthy. *)
Definition assert_given {A} (x : option A) : M A :=
  match x with
  | Some a => ret a
  | None => raise AssertionError
  end.

(** [image.size]; an object that is no image has no such attribute. *)
Definition Image_size (image : ref) : M (Z * Z) :=
  λ σ, match σ !! image with
       | Some im => (Ok (im_size im), σ)
       | None => (Raise AttributeError, σ)
       end.

(** [image.copy()]: a new image object with the same content. *)
Definition Image_copy (image : ref) : M ref :=
  λ σ, match σ !! image with
       | Some im => let r := fresh (dom σ) in (Ok r, <[r := im]> σ)
       | None => (Raise AttributeError, σ)
       end.

(** ** The image library

    What the source calls in Pillow, as functions on image contents:
    [Image.thumbnail(size)], which gives the content the image object has
    after the call, and [ImageOps.expand(image, border)], which gives the
    content of the image it returns. *)
Record Pillow := {
  pil_thumbnail : Image → pyval * pyval → result Image;
  pil_expand : Image → pyval * pyval * pyval * pyval → result Image
}.

(** [image.thumbnail(size)] changes the image object in place. *)
Definition Image_thumbnail (pil : Pillow) (image : ref) (sz : pyval * pyval) : M unit :=
  λ σ, match σ !! image with
       | Some im =>
           match pil_thumbnail pil im sz with
           | inl e => (inl e, σ)
           | inr im' => (Ok tt, <[image := im']> σ)
           end
       | None => (Raise AttributeError, σ)
       end.

(** [ImageOps.expand(image, border)] returns a new image object. *)
Definition ImageOps_expand (pil : Pillow) (image : ref)
    (border : pyval * pyval * pyval * pyval) : M ref :=
  λ σ, match σ !! image with
       | Some im =>
           match pil_expand pil im border with
           | inl e => (inl e, σ)
           | inr im' => let r := fresh (dom σ) in (Ok r, <[r := im']> σ)
           end
       | None => (Raise AttributeError, σ)
       end.

(** [np.expand_dims(image, axis=0)] reads the samples of the image. *)
Definition Image_load (image : ref) : M Image :=
  λ σ, match σ !! image with
       | Some im => (Ok im, σ)
       | None => (Raise AttributeError, σ)
       end.

(** ** The inference engine *)

(** One row of the boxes tensor: [box[0]], [box[1]], [box[2]], [box[3]]. *)
Record Box := {
  ymin : Q;
  xmin : Q;
  ymax : Q;
  xmax : Q
}.

(** The four output tensors, in the order of [output_details]; the
    leading batch dimension of size one is left out, and [num] is
    [num[0]]. *)
Record OutputTensors := {
  boxes : list Box;
  label_codes : list Q;
  scores : list Q;
  num : Q
}.

(** The input tensor: the samples of the padded image, as floats. *)
Record InputTensor := {
  tensor_size : Z * Z;
  tensor_at : Z → Z → Q * Q * Q
}.

(** [TFInferenceEngine], of the module [inference] that is not among the
    sources, as far as the detector uses it: the shape of the input
    tensor, [input_details[0]['shape']] (NxHxWxC), the configuration, and
    what [set_tensor], [infer] and the four calls of [get_tensor] make of
    an input. *)
Record TFInferenceEngine := {
  input_shape : pyval * pyval * pyval * pyval;
  is_quantized : bool;
  confidence_threshold : Q;
  top_k : Z;
  labels_path : option string;
  infer : InputTensor → OutputTensors
}.

(** The detector, after [__init__]. *)
Record TFImageDetection := {
  _tfengine : TFInferenceEngine;
  _labels : gmap Z string
}.

(** [__init__] (lines 38-43): the label map is loaded once. *)
Definition init (fs : string → option file) (tfe : TFInferenceEngine) : result TFImageDetection :=
  (labels <- load_labels fs (labels_path tfe) ;;
   Ok {| _tfengine := tfe; _labels := labels |})%result.

(** A detection: [(label, confidence, (x0, y0, x1, y1))]. *)
Definition Detection : Type := (string * Q * (Q * Q * Q * Q))%type.

(** ** thumbnail (lines 66-109) *)

(** The [try] block (lines 91-99).  An exception leaves it together with
    the values [w] and [h] hold at that point: the handler prints their
    types. *)
Definition thumbnail_try (pil : Pillow) (thumb : ref) (w h : pyval)
    : store → (exn * pyval * pyval + unit) * store :=
  λ σ,
    let call (w h : pyval) :=
      match Image_thumbnail pil thumb (w, h) σ with
      | (inl e, σ') => (inl (e, w, h), σ')
      | (inr u, σ') => (inr u, σ')
      end in
    if is_np_generic w then
      match item w with
      | inl e => (inl (e, w, h), σ)
      | inr w1 =>
          let w2 := PyInt (py_int w1) in
          match item h with
          | inl e => (inl (e, w2, h), σ)
          | inr h1 =>
              let h2 := PyInt (py_int h1) in
              call w2 h2
          end
      end
    else call w h.

Definition thumbnail (pil : Pillow) (image : option ref)
    (desired_size : option (pyval * pyval)) : M ref :=
  (image <~ assert_given image ;;
   desired_size <~ assert_given desired_size ;;
   thumb <~ Image_copy image ;;
   λ σ, match thumbnail_try pil thumb (fst desired_size) (snd desired_size) σ with
        | (inl (e, w, h), σ') =>
            (Raise (RuntimeError desired_size (type_of w) (type_of h) e), σ')
        | (inr _, σ') => (Ok thumb, σ')
        end)%M.

(** ** resize (lines 111-147) *)

(** [new_im.size == desired_size] *)
Definition size_eq (sz : Z * Z) (desired_size : pyval * pyval) : bool :=
  py_eq_int (fst sz) (fst desired_size) && py_eq_int (snd sz) (snd desired_size).

Definition resize (pil : Pillow) (image : option ref)
    (desired_size : option (pyval * pyval)) : M ref :=
  (image <~ assert_given image ;;
   desired_size <~ assert_given desired_size ;;
   thumb <~ Image_copy image ;;
   thumb_size <~ Image_size thumb ;;
   let delta_w := py_sub (fst desired_size) (fst thumb_size) in
   let delta_h := py_sub (snd desired_size) (snd thumb_size) in
   let padding := (PyInt 0, PyInt 0, delta_w, delta_h) in
   new_im <~ ImageOps_expand pil thumb padding ;;
   new_size <~ Image_size new_im ;;
   checked <~ lift (py_assert (size_eq new_size desired_size)) ;;
   ret new_im)%M.

(** ** detect (lines 163-289) *)

(** The input data handed to the engine (lines 204-220): the samples of
    the padded image, normalised for a model that is not quantized. *)
Definition normalize (quantized : bool) (v : Z) : Q :=
  if quantized then inject_Z v
  else ((inject_Z v - (255 # 2)) / (255 # 2))%Q.

Definition input_data (quantized : bool) (im : Image) : InputTensor :=
  {| tensor_size := im_size im;
     tensor_at x y :=
       let '(r, g, b) := getpixel im x y in
       (normalize quantized r, normalize quantized g, normalize quantized b) |}.

(** The body of the loop over [top_k_indices] (lines 261-288), on the
    list of detections collected so far. *)
Definition detect_candidate (labels : gmap Z string) (out : OutputTensors)
    (threshold w_factor h_factor : Q)
    (inference_result : list Detection) (i : nat) : result (list Detection) :=
  (confidence <- index (scores out) i ;;
   if Qle_bool threshold confidence then
     code <- index (label_codes out) i ;;
     let li := int_of_float code in
     if li <? Z.of_nat (size labels) then
       label <- dict_getitem labels li ;;
       box <- index (boxes out) i ;;
       let x0 := (xmin box / w_factor)%Q in
       let y0 := (ymin box / h_factor)%Q in
       let x1 := py_min (xmax box / w_factor) 1 in
       let y1 := py_min (ymax box / h_factor) 1 in
       Ok (inference_result ++ [(label, confidence, (x0, y0, x1, y1))])
     else Ok inference_result
   else Ok inference_result)%result.

Fixpoint detect_loop (labels : gmap Z string) (out : OutputTensors)
    (threshold w_factor h_factor : Q)
    (inference_result : list Detection) (indices : list nat) : result (list Detection) :=
  match indices with
  | [] => Ok inference_result
  | i :: indices' =>
      (inference_result' <-
         detect_candidate labels out threshold w_factor h_factor inference_result i ;;
       detect_loop labels out threshold w_factor h_factor inference_result' indices')%result
  end.

Section Detect.

(** Pillow, numpy's [argsort] and the detector the method is called on. *)
Variable pil : Pillow.
Variable argsort : list Q → list nat.
Variable self : TFImageDetection.

(** Lines 247-256: the indices of the [top_k] best of the first
    [detections_count] scores, best first. *)
Definition top_k_indices (out : OutputTensors) : list nat :=
  let tfe := _tfengine self in
  let detections_count := int_of_float (num out) in
  let indices_of_sorted_scores := argsort (py_slice_to detections_count (scores out)) in
  rev (py_slice_from (-1 * top_k tfe) indices_of_sorted_scores).

(** Lines 247-288: from the output tensors and the two scale factors to
    [inference_result]. *)
Definition detect_rank (out : OutputTensors) (w_factor h_factor : Q) : result (list Detection) :=
  detect_loop (_labels self) out (confidence_threshold (_tfengine self))
    w_factor h_factor [] (top_k_indices out).

(** Lines 180-201: the thumbnail, the padded image and the two scale
    factors. *)
Definition detect_prepare (image : option ref) : M (ref * ref * Q * Q) :=
  (given <~ assert_given image ;;
   let tfe := _tfengine self in
   let '(_, height, width, _) := input_shape tfe in
   thumbnail <~ thumbnail pil image (Some (width, height)) ;;
   new_im <~ resize pil (Some thumbnail) (Some (width, height)) ;;
   thumbnail_size <~ Image_size thumbnail ;;
   new_im_size <~ Image_size new_im ;;
   w_factor <~ lift (true_div (fst thumbnail_size) (fst new_im_size)) ;;
   h_factor <~ lift (true_div (snd thumbnail_size) (snd new_im_size)) ;;
   ret (thumbnail, new_im, w_factor, h_factor))%M.

(** The method without its clock.  The call of [_log_stats] at line 228
    reads the clock, writes the log and [self.last_time], and raises on a
    start reading of zero and on a clock that reads [self.last_time]; it
    is left out here and put in by [detect_logged] below.  [detect] is
    what the method does whenever that call returns; where that call
    raises, the method raises and [detect] goes on to the ranking. *)
Definition detect (image : option ref) : M (ref * ref * list Detection) :=
  (prepared <~ detect_prepare image ;;
   let '(thumbnail, new_im, w_factor, h_factor) := prepared in
   padded <~ Image_load new_im ;;
   let tfe := _tfengine self in
   let out := infer tfe (input_data (is_quantized tfe) padded) in
   inference_result <~ lift (detect_rank out w_factor h_factor) ;;
   ret (thumbnail, new_im, inference_result))%M.

End Detect.

(** ** Contracts of the libraries *)

(** The integer a plain or numpy integer stands for. *)
Definition int_value (v : pyval) : option Z :=
  match v with
  | PyInt z | NpInt z => Some z
  | PyFloat _ | NpFloat _ => None
  end.

(** The aspect ratio is kept up to the rounding of one dimension to a
    whole pixel: the output differs from a rectangle of exactly the
    input's proportions by less than one pixel along one side.  With
    input [(iw, ih)] and output [(ow, oh)] this is
    [|ow * ih - oh * iw| < max iw ih]. *)
Definition aspect_preserved (input output : Z * Z) : Prop :=
  Z.abs (fst output * snd input - snd output * fst input) < Z.max (fst input) (snd input).

(** What the proofs below rely on from Pillow.

    [Image.thumbnail(size)], on an image and a requested size of at least
    one pixel each way, succeeds and leaves an image that is no larger
    than the requested size, no larger than it was, at least one pixel
    each way, and of the same aspect.

    [ImageOps.expand(image, (0, 0, right, bottom))], for widths given as
    plain or numpy integers that are not negative, succeeds and returns
    an image grown by these widths, with the input's samples at the same
    coordinates and the default fill, black, in the border. *)
Record PillowContract (pil : Pillow) : Prop := {
  thumbnail_contract :
    ∀ (im : Image) (w h : Z),
      1 ≤ width im → 1 ≤ height im → 1 ≤ w → 1 ≤ h →
      ∃ im', pil_thumbnail pil im (PyInt w, PyInt h) = Ok im' ∧
             1 ≤ width im' ∧ width im' ≤ w ∧ width im' ≤ width im ∧
             1 ≤ height im' ∧ height im' ≤ h ∧ height im' ≤ height im ∧
             aspect_preserved (im_size im) (im_size im');
  expand_contract :
    ∀ (im : Image) (vr vb : pyval) (r b : Z),
      int_value vr = Some r → int_value vb = Some b →
      0 ≤ r → 0 ≤ b → 0 ≤ width im → 0 ≤ height im →
      ∃ im', pil_expand pil im (PyInt 0, PyInt 0, vr, vb) = Ok im' ∧
             im_size im' = (width im + r, height im + b) ∧
             (∀ x y, 0 ≤ x < width im → 0 ≤ y < height im →
                     getpixel im' x y = getpixel im x y) ∧
             (∀ x y, 0 ≤ x < width im + r → 0 ≤ y < height im + b →
                     width im ≤ x ∨ height im ≤ y →
                     getpixel im' x y = black)
}.

(** What the proofs rely on from [np.argsort]: the result lists every
    index of the array once, and the values at these indices ascend.  The
    order among equal values is left open. *)
Definition ArgsortContract (argsort : list Q → list nat) : Prop :=
  ∀ a : list Q,
    Permutation (argsort a) (seq 0 (length a)) ∧
    StronglySorted Qle (map (λ i, nth i a 0%Q) (argsort a)).

(** ** Reference implementations of the libraries

    Executable instances of the contracts, used to run the pipeline on
    concrete inputs. *)

(** A thumbnail size: fit the width, then the height, truncating and
    keeping at least one pixel. *)
Definition reference_thumbnail_size (sz : Z * Z) (w h : Z) : Z * Z :=
  let '(x, y) := sz in
  let '(x, y) := if w <? x then (w, Z.max (y * w / x) 1) else (x, y) in
  if h <? y then (Z.max (x * h / y) 1, h) else (x, y).

(** Nearest-neighbour resampling to a new size. *)
Definition reference_resample (im : Image) (sz : Z * Z) : Image :=
  {| im_size := sz;
     getpixel x y := getpixel im (x * width im / fst sz) (y * height im / snd sz) |}.

Definition reference_thumbnail (im : Image) (sz : pyval * pyval) : result Image :=
  match sz with
  | (PyInt w, PyInt h) =>
      if (1 <=? w) && (1 <=? h)
      then Ok (reference_resample im (reference_thumbnail_size (im_size im) w h))
      else Raise ValueError
  | _ => Raise TypeError
  end.

Definition reference_expand (im : Image) (border : pyval * pyval * pyval * pyval)
    : result Image :=
  let '(vl, vt, vr, vb) := border in
  match int_value vl, int_value vt, int_value vr, int_value vb with
  | Some l, Some t, Some r, Some b =>
      let w := l + width im + r in
      let h := t + height im + b in
      if (0 <=? w) && (0 <=? h) then
        Ok {| im_size := (w, h);
              getpixel x y :=
                if (l <=? x) && (x <? l + width im) && (t <=? y) && (y <? t + height im)
                then getpixel im (x - l) (y - t)
                else black |}
      else Raise ValueError
  | _, _, _, _ => Raise TypeError
  end.

Definition reference_pillow : Pillow :=
  {| pil_thumbnail := reference_thumbnail; pil_expand := reference_expand |}.

(** Insertion sort of the indices by their values. *)
Fixpoint insert_index (a : list Q) (i : nat) (sorted : list nat) : list nat :=
  match sorted with
  | [] => [i]
  | j :: sorted' =>
      if Qle_bool (nth i a 0%Q) (nth j a 0%Q) then i :: j :: sorted'
      else j :: insert_index a i sorted'
  end.

Definition reference_argsort (a : list Q) : list nat :=
  fold_right (insert_index a) [] (seq 0 (length a)).

(** ** What the ranking loop does with a candidate *)

(** The box emitted for a raw box (lines 273-276). *)
Definition back_projected (box : Box) (w_factor h_factor : Q) : Q * Q * Q * Q :=
  ((xmin box / w_factor)%Q, (ymin box / h_factor)%Q,
   py_min (xmax box / w_factor) 1, py_min (ymax box / h_factor) 1).

(** Candidate [i] passes the two tests of the loop, its label code is a
    key of the label map, and the loop appends [d] for it. *)
Definition emitted (labels : gmap Z string) (out : OutputTensors)
    (threshold w_factor h_factor : Q) (i : nat) (d : Detection) : Prop :=
  ∃ (confidence code : Q) (label : string) (box : Box),
    scores out !! i = Some confidence ∧
    (threshold <= confidence)%Q ∧
    label_codes out !! i = Some code ∧
    int_of_float code < Z.of_nat (size labels) ∧
    labels !! int_of_float code = Some label ∧
    boxes out !! i = Some box ∧
    d = (label, confidence, back_projected box w_factor h_factor).

(** Candidate [i] fails one of the two tests of the loop: its confidence
    is below the threshold, or its label code is not less than the
    number of entries of the label map. *)
Definition rejected (labels : gmap Z string) (out : OutputTensors)
    (threshold : Q) (i : nat) : Prop :=
  ∃ confidence : Q,
    scores out !! i = Some confidence ∧
    ((confidence < threshold)%Q ∨
     ∃ code : Q, label_codes out !! i = Some code ∧
                 Z.of_nat (size labels) ≤ int_of_float code).

(** The confidence of a detection. *)
Definition confidence_of (d : Detection) : Q := snd (fst d).


(** ** Sample inputs *)

(** A 600 by 400 image, and a store that holds it at reference 1. *)
Definition sample_image : Image :=
  {| im_size := (600, 400); getpixel x y := (x mod 256, y mod 256, 0) |}.

Definition sample_store : store := {[ 1%positive := sample_image ]}.

(** A 300 by 200 thumbnail. *)
Definition sample_thumbnail : Image :=
  {| im_size := (300, 200); getpixel x y := (x mod 256, y mod 256, 0) |}.

Definition sample_thumbnail_store : store := {[ 1%positive := sample_thumbnail ]}.

(** A dense label map, and one with a gap: two entries, keys 0 and 2. *)
Definition sample_labels : gmap Z string :=
  <[1 := "person"%string]> (<[0 := "background"%string]> ∅).

Definition sparse_labels : gmap Z string :=
  <[2 := "person"%string]> (<[0 := "background"%string]> ∅).

Definition sample_box : Box :=
  {| ymin := 1 # 10; xmin := 2 # 10; ymax := 4 # 10; xmax := 6 # 10 |}.

(** Output tensors with one detection, of confidence 0.9 and the given
    label code. *)
Definition one_candidate (code : Q) : OutputTensors :=
  {| boxes := [sample_box]; label_codes := [code]; scores := [9 # 10]; num := 1 |}.


(** An engine with a 300 by 300 input tensor and a threshold of 0.6 that
    answers every inference with [out]. *)
Definition sample_engine (k : Z) (out : OutputTensors) : TFInferenceEngine :=
  {| input_shape := (NpInt 1, NpInt 300, NpInt 300, NpInt 3);
     is_quantized := true;
     confidence_threshold := 6 # 10;
     top_k := k;
     labels_path := Some "labels.txt"%string;
     infer := λ _, out |}.

Definition sample_detector (k : Z) (labels : gmap Z string) (out : OutputTensors)
    : TFImageDetection :=
  {| _tfengine := sample_engine k out; _labels := labels |}.

(** Two detections; the second box starts above the image and ends
    below the thumbnail. *)
Definition sample_output : OutputTensors :=
  {| boxes := [sample_box;
               {| ymin := -1 # 10; xmin := 0; ymax := 9 # 10; xmax := 1 |}];
     label_codes := [1%Q; 0%Q];
     scores := [7 # 10; 9 # 10];
     num := 2 |}.

(** What the ranking loop makes of [sample_output] with the scale factors
    of a 300 by 200 thumbnail in a 300 by 300 tensor. *)
Definition sample_result : list Detection :=
  Eval vm_compute in
    match detect_rank reference_argsort
            (sample_detector 3 sample_labels sample_output) sample_output 1 (2 # 3) with
    | inr inference_result => inference_result
    | inl _ => []
    end.

(** ** The entries of a label file *)

(** The entry of the code [c] with the text [label] comes from a line of
    [lines]: the pattern splits the line into digits that read [c] and a
    text that strips to [label]. *)
Definition label_entry (lines : list text) (c : Z) (label : string) : Prop :=
  ∃ line num txt : text,
    line ∈ lines ∧ label_pattern_match line = Some (num, txt) ∧
    c = int_of_digits num ∧ label = string_of_list_ascii (strip txt).

(** A character that ends no line: neither a line feed nor a carriage
    return. *)
Definition inline (c : ascii) : bool :=
  negb (code_point c =? 10)%N && negb (code_point c =? 13)%N.

(** The line of a label file for a code written as the digits [num] and a
    text [txt], and the file of a list of such entries. *)
Definition label_line (entry : text * text) : text :=
  fst entry ++ snd entry ++ [newline].

Definition label_file (entries : list (text * text)) : text :=
  concat (map label_line entries).

(** An entry that can be read back: digits, then a text that does not
    start with a digit and has no line ending in it. *)
Definition well_formed_entry (entry : text * text) : Prop :=
  fst entry ≠ [] ∧ Forall (λ c, isdigit c = true) (fst entry) ∧
  snd entry ≠ [] ∧ Forall (λ c, inline c = true) (snd entry) ∧
  (∀ c, head (snd entry) = Some c → isdigit c = false).

(** The dict of a list of entries, a later entry replacing an earlier one
    of the same code. *)
Definition labels_of (entries : list (text * text)) : gmap Z string :=
  fold_left (λ m entry, <[int_of_digits (fst entry)
                          := string_of_list_ascii (strip (snd entry))]> m)
            entries ∅.

(** ** The candidates of the ranking loop *)

(** [scores[0, :detections_count]] (line 253) *)
Definition considered_scores (out : OutputTensors) : list Q :=
  py_slice_to (int_of_float (num out)) (scores out).

(** The two tests of the loop on candidate [i] (lines 262 and 268). *)
Definition passes (labels : gmap Z string) (out : OutputTensors)
    (threshold : Q) (i : nat) : bool :=
  match scores out !! i, label_codes out !! i with
  | Some confidence, Some code =>
      Qle_bool threshold confidence && (int_of_float code <? Z.of_nat (size labels))
  | _, _ => false
  end.

(** The label map has an entry for every code from zero up to its size. *)
Definition dense (labels : gmap Z string) : Prop :=
  ∀ k : Z, 0 ≤ k < Z.of_nat (size labels) → is_Some (labels !! k).

(** ** Computations that leave the image objects alone *)

(** Every object of the store is, after the computation, what it was
    before; new objects may have been added. *)
Definition keeps_objects {A} (m : M A) : Prop :=
  ∀ (σ : store) (r : ref) (x : Image), σ !! r = Some x → snd (m σ) !! r = Some x.

(** ** _log_stats (lines 149-161) *)

(** [a / b] on two Python [float]s, the one division of the module that
    raises on a zero divisor. *)
Definition float_div (a b : Q) : result Q :=
  if Qeq_bool b 0 then Raise ZeroDivisionError else Ok (a / b)%Q.

(** [self.context], which the class [PipeElement] provides, as far as
    [_log_stats] reads it: a context object is truthy, and its
    [unique_pipeline_name] is [None] or a string. *)
Record PipeContext := {
  unique_pipeline_name : option string
}.

(** The three values [_log_stats] hands to [log.info]. *)
Record Stats := {
  inf_time : Q;
  fps : Q;
  pipeline_name : string
}.

(** Lines 155-158: the name of the pipeline, or 'unknown' when there is
    no context, no name or an empty name. *)
Definition pipeline_name_of (context : option PipeContext) : string :=
  match context with
  | Some c =>
      match unique_pipeline_name c with
      | Some name => if String.eqb name "" then "unknown" else name
      | None => "unknown"
      end
  | None => "unknown"
  end.

(** [_log_stats], given [self.context], the value of [self.last_time] and
    the reading [end_time] of the monotonic clock at line 152: what is
    logged, and the new [self.last_time].  [assert start_time] rejects
    [None] and a reading of zero. *)
Definition _log_stats (context : option PipeContext) (last_time end_time : Q)
    (start_time : option Q) : result (Stats * Q) :=
  match start_time with
  | None => Raise AssertionError
  | Some start_time =>
      (checked <- py_assert (negb (Qeq_bool start_time 0)) ;;
       let inf_time := ((end_time - start_time) * 1000)%Q in
       fps <- float_div 1 (end_time - last_time) ;;
       let pipeline_name := pipeline_name_of context in
       Ok ({| inf_time := inf_time; fps := fps; pipeline_name := pipeline_name |},
           end_time))%result
  end.

(** [detect] with its clock: [start_time] and [end_time] are the readings
    of the monotonic clock at lines 181 and 152, and the state holds
    [self.last_time] beside the image objects.  [_log_stats] runs after
    the inference and before the output tensors are read (line 228). *)
Definition detect_logged (pil : Pillow) (argsort : list Q → list nat)
    (self : TFImageDetection) (context : option PipeContext)
    (start_time end_time : Q) (image : option ref)
    : store * Q → result (ref * ref * list Detection) * (store * Q) :=
  λ '(σ, last_time),
    match detect_prepare pil self image σ with
    | (inl e, σ') => (inl e, (σ', last_time))
    | (inr (thumbnail, new_im, w_factor, h_factor), σ') =>
        match Image_load new_im σ' with
        | (inl e, σ'') => (inl e, (σ'', last_time))
        | (inr padded, σ'') =>
            let tfe := _tfengine self in
            let out := infer tfe (input_data (is_quantized tfe) padded) in
            match _log_stats context last_time end_time (Some start_time) with
            | inl e => (inl e, (σ'', last_time))
            | inr (stats, last_time') =>
                match detect_rank argsort self out w_factor h_factor with
                | inl e => (inl e, (σ'', last_time'))
                | inr inference_result =>
                    (Ok (thumbnail, new_im, inference_result), (σ'', last_time'))
                end
            end
        end
    end.

(** ** Further sample inputs *)

(** The entries "0 background" and "1   person". *)
Definition sample_entries : list (text * text) :=
  [ (list_ascii_of_string "0", list_ascii_of_string " background");
    (list_ascii_of_string "1", list_ascii_of_string "   person") ].

(** An image library in which every call fails. *)
Definition failing_pillow : Pillow :=
  {| pil_thumbnail := λ _ _, Raise ValueError;
     pil_expand := λ _ _, Raise ValueError |}.

(** A run of [detect] on the sample image with one detection. *)
Definition sample_run : result (ref * ref * list Detection) * store :=
  detect reference_pillow reference_argsort
    (sample_detector 3 sample_labels (one_candidate 1)) (Some 1%positive) sample_store.

(** * Properties *)

(** ** The label map loader *)

Lemma load_label_lines_app (m : gmap Z string) (l1 l2 : list text) :
  load_label_lines m (l1 ++ l2) =
  (m1 <- load_label_lines m l1 ;; load_label_lines m1 l2)%result.
Proof.
  revert m. induction l1 as [|line l1 IH]; intros m; simpl; [done|].
  destruct (load_label_line m line) as [e|m1]; simpl; [done|]. apply IH.
Qed.

(** A line the pattern rejects stops the loader, wherever it stands. *)
Lemma load_label_lines_unmatched (m : gmap Z string) (lines : list text) (line : text) :
  line ∈ lines → label_pattern_match line = None →
  load_label_lines m lines = Raise AttributeError.
Proof.
  intros Hin Hnone. revert m.
  induction lines as [|l lines IH]; intros m; [by apply elem_of_nil in Hin|].
  simpl. unfold load_label_line at 1.
  destruct (label_pattern_match l) as [[num txt]|] eqn:Hl; simpl; [|done].
  apply elem_of_cons in Hin as [->|Hin]; [congruence|]. by apply IH.
Qed.

(** When the pattern accepts every line, the loader succeeds. *)
Lemma load_label_lines_matched (m : gmap Z string) (lines : list text) :
  (∀ l, l ∈ lines → is_Some (label_pattern_match l)) →
  ∃ m', load_label_lines m lines = Ok m'.
Proof.
  revert m. induction lines as [|l lines IH]; intros m Hall; simpl; [by eexists|].
  destruct (Hall l) as [[num txt] Hl]; [by left|].
  unfold load_label_line. rewrite Hl. simpl.
  apply IH. intros l' Hl'. apply Hall. by right.
Qed.

(** Lines that carry other codes leave the binding of a code alone. *)
Lemma load_label_lines_other_codes (m m' : gmap Z string) (lines : list text) (c : Z) :
  load_label_lines m lines = Ok m' →
  (∀ l num txt, l ∈ lines → label_pattern_match l = Some (num, txt) →
                int_of_digits num ≠ c) →
  m' !! c = m !! c.
Proof.
  revert m. induction lines as [|l lines IH]; intros m Hload Hother; simpl in Hload.
  - by inversion Hload.
  - unfold load_label_line in Hload.
    destruct (label_pattern_match l) as [[num txt]|] eqn:Hl; simpl in Hload; [|done].
    rewrite (IH _ Hload).
    + apply lookup_insert_ne. apply (Hother l num txt); [by left|done].
    + intros l' num' txt' Hin. apply Hother. by right.
Qed.

(** The example of the specification: the resource with the lines
    "0 background" and "1   person". *)
Example load_labels_sample :
  load_labels (λ _, Some (Decoded (list_ascii_of_string "0 background
1   person
"))) (Some "labels.txt"%string)
  = Ok (<[1 := "person"%string]> (<[0 := "background"%string]> ∅)).
Proof. reflexivity. Qed.

(** The pattern asks for no whitespace after the integer, and [\d+] gives
    a digit back when nothing else is left for [.+]: the line "12abc"
    binds 12 to "abc", and the line "123" binds 12 to "3". *)
Example load_labels_loose_lines :
  load_labels (λ _, Some (Decoded (list_ascii_of_string "12abc"))) (Some "labels.txt"%string)
    = Ok (<[12 := "abc"%string]> ∅) ∧
  load_labels (λ _, Some (Decoded (list_ascii_of_string "123"))) (Some "labels.txt"%string)
    = Ok (<[12 := "3"%string]> ∅).
Proof. split; reflexivity. Qed.

(** C7, as stated, fails: a resource whose only line is "person" has a
    line that is not an integer, whitespace and text; loading it raises
    the [AttributeError] of [p.match(line).groups()], which is no
    [FormatError]. *)
Lemma load_labels_malformed_not_format_error :
  let fs := λ _ : string, Some (Decoded (list_ascii_of_string "person")) in
  load_labels fs (Some "labels.txt"%string) = Raise AttributeError ∧
  load_labels fs (Some "labels.txt"%string) ≠ Raise FormatError.
Proof. split; [reflexivity|discriminate]. Qed.

(** C7, amended: when the pattern [\s*(\d+)(.+)] of the loader does not
    match some line of the resource, [load_labels] fails, with the
    [AttributeError] raised by calling [groups] on the failed match. *)
Theorem load_labels_unmatched_line_raises
    (fs : string → option file) (path : string) (content line : text) :
  path ≠ ""%string →
  fs path = Some (Decoded content) →
  line ∈ readlines content →
  label_pattern_match line = None →
  load_labels fs (Some path) = Raise AttributeError.
Proof.
  intros Hpath Hfs Hin Hnone. unfold load_labels.
  destruct (String.eqb_spec path "") as [->|_]; [done|]. simpl.
  rewrite Hfs. by eapply load_label_lines_unmatched.
Qed.

(** An empty line between two entries stops the loader. *)
Lemma load_labels_unmatched_line_raises_witness :
  load_labels (λ _, Some (Decoded (list_ascii_of_string "0 background

1 person"))) (Some "labels.txt"%string) = Raise AttributeError.
Proof.
  apply (load_labels_unmatched_line_raises _ "labels.txt"
           (list_ascii_of_string "0 background

1 person") [newline]).
  - discriminate.
  - reflexivity.
  - vm_compute. right. left.
  - reflexivity.
Defined.

(** C10: in a resource whose lines the pattern all accepts, the code of a
    line is bound to the stripped text of that line whenever no later
    line carries the same code: of several lines with one code, the last
    one wins, and loading succeeds. *)
Theorem load_labels_last_line_wins
    (fs : string → option file) (path : string) (content : text)
    (before after : list text) (line num txt : text) :
  path ≠ ""%string →
  fs path = Some (Decoded content) →
  (∀ l, l ∈ readlines content → is_Some (label_pattern_match l)) →
  readlines content = before ++ line :: after →
  label_pattern_match line = Some (num, txt) →
  (∀ l num' txt', l ∈ after → label_pattern_match l = Some (num', txt') →
                  int_of_digits num' ≠ int_of_digits num) →
  ∃ m, load_labels fs (Some path) = Ok m ∧
       m !! int_of_digits num = Some (string_of_list_ascii (strip txt)).
Proof.
  intros Hpath Hfs Hall Hsplit Hline Hlast. unfold load_labels.
  destruct (String.eqb_spec path "") as [->|_]; [done|]. simpl.
  rewrite Hfs.
  destruct (load_label_lines_matched ∅ _ Hall) as [m Hm].
  exists m. split; [done|].
  rewrite Hsplit, load_label_lines_app in Hm.
  destruct (load_label_lines ∅ before) as [e|m1]; simpl in Hm; [done|].
  unfold load_label_line in Hm. rewrite Hline in Hm. simpl in Hm.
  rewrite (load_label_lines_other_codes _ _ _ _ Hm Hlast).
  apply lookup_insert_eq.
Qed.

(** Two lines carry the code 1; the second one, "1 person", wins. *)
Lemma load_labels_last_line_wins_witness :
  ∃ m, load_labels (λ _, Some (Decoded (list_ascii_of_string "1 cat
1 person
2 dog
"))) (Some "labels.txt"%string) = Ok m ∧ m !! 1 = Some "person"%string.
Proof.
  apply (load_labels_last_line_wins _ "labels.txt"
           (list_ascii_of_string "1 cat
1 person
2 dog
")
           [list_ascii_of_string "1 cat
"]
           [list_ascii_of_string "2 dog
"]
           (list_ascii_of_string "1 person
")
           (list_ascii_of_string "1")
           (list_ascii_of_string " person")).
  - discriminate.
  - reflexivity.
  - intros l Hl. vm_compute in Hl.
    repeat (apply elem_of_cons in Hl as [->|Hl]; [by eexists|]).
    by apply elem_of_nil in Hl.
  - reflexivity.
  - reflexivity.
  - intros l num' txt' Hl Hmatch.
    apply list_elem_of_singleton in Hl as ->.
    vm_compute in Hmatch. injection Hmatch as <- <-. by vm_compute.
Defined.

(** ** The reference implementations meet the contracts *)

(** The truncated quotient of one fitting step. *)
Lemma fit_quotient (x y w : Z) :
  1 ≤ x → 1 ≤ y → 1 ≤ w → w < x →
  let q := y * w / x in
  0 ≤ q ∧ q < y ∧ q * x ≤ y * w ∧ y * w < (q + 1) * x.
Proof.
  intros Hx Hy Hw Hlt q.
  pose proof (Z.div_mod (y * w) x ltac:(lia)) as Hdm.
  pose proof (Z.mod_pos_bound (y * w) x ltac:(lia)) as Hmod.
  fold q in Hdm.
  assert (0 ≤ q) by (apply Z.div_pos; nia).
  assert (q < y) by (apply Z.div_lt_upper_bound; nia).
  repeat split; nia.
Qed.

Lemma reference_thumbnail_size_fits (x y w h : Z) :
  1 ≤ x → 1 ≤ y → 1 ≤ w → 1 ≤ h →
  let out := reference_thumbnail_size (x, y) w h in
  1 ≤ fst out ∧ fst out ≤ w ∧ fst out ≤ x ∧
  1 ≤ snd out ∧ snd out ≤ h ∧ snd out ≤ y ∧
  aspect_preserved (x, y) out.
Proof.
  intros Hx Hy Hw Hh. unfold reference_thumbnail_size, aspect_preserved.
  destruct (Z.ltb_spec w x) as [Hwx|Hwx].
  - destruct (fit_quotient x y w Hx Hy Hw Hwx) as (Hq0 & Hqy & Hlow & Hup).
    set (q1 := y * w / x) in *.
    assert (Hy1 : 1 ≤ Z.max q1 1) by lia.
    destruct (Z.ltb_spec h (Z.max q1 1)) as [Hhy|Hhy]; simpl.
    + assert (Hmax : Z.max q1 1 = q1) by lia. rewrite Hmax in *.
      destruct (fit_quotient q1 w h Hy1 Hw Hh Hhy) as (Hp0 & Hpw & Hlow2 & Hup2).
      set (q2 := w * h / q1) in *.
      repeat split; try lia.
      apply Z.abs_lt.
      destruct (Z.max_spec q2 1) as [[Hle ->]|[Hle ->]].
      * assert (Hq2 : q2 = 0) by lia. rewrite Hq2 in *.
        assert (h * x < y).
        { apply (Z.mul_lt_mono_pos_l w); [lia|].
          apply Z.lt_le_trans with (q1 * x); [|lia].
          replace (w * (h * x)) with ((w * h) * x) by ring.
          apply Z.mul_lt_mono_pos_r; lia. }
        lia.
      * assert (H1 : q2 * (y * w) < q2 * ((q1 + 1) * x))
          by (apply Z.mul_lt_mono_pos_l; lia).
        assert (H2 : q2 * (q1 * x) ≤ q2 * (y * w))
          by (apply Z.mul_le_mono_nonneg_l; lia).
        assert (H3 : (q2 * q1) * x ≤ (w * h) * x)
          by (apply Z.mul_le_mono_nonneg_r; lia).
        assert (H4 : (w * h) * x < ((q2 + 1) * q1) * x)
          by (apply Z.mul_lt_mono_pos_r; lia).
        assert (H5 : q2 < w).
        { apply (Z.mul_lt_mono_pos_r q1); [lia|].
          apply Z.le_lt_trans with (w * h); [lia|].
          apply Z.mul_lt_mono_pos_l; lia. }
        assert (H6 : q2 * x < w * x) by (apply Z.mul_lt_mono_pos_r; lia).
        split.
        -- assert ((- y) * w < (q2 * y - h * x) * w) by lia.
           assert (- y < q2 * y - h * x)
             by (apply (Z.mul_lt_mono_pos_r w); lia).
           lia.
        -- assert ((q2 * y - h * x) * w < x * w) by lia.
           assert (q2 * y - h * x < x)
             by (apply (Z.mul_lt_mono_pos_r w); lia).
           lia.
    + repeat split; lia.
  - destruct (Z.ltb_spec h y) as [Hhy|Hhy]; simpl.
    + destruct (fit_quotient y x h Hy Hx Hh Hhy) as (Hq0 & Hqx & Hlow & Hup).
      set (q := x * h / y) in *.
      repeat split; lia.
    + repeat split; lia.
Qed.

Lemma reference_pillow_contract : PillowContract reference_pillow.
Proof.
  split.
  - intros im w h Hw Hh Hdw Hdh. simpl. unfold reference_thumbnail.
    destruct (Z.leb_spec 1 w); [|lia]. destruct (Z.leb_spec 1 h); [|lia]. simpl.
    eexists. split; [reflexivity|].
    unfold width, height in *. destruct (im_size im) as [x y]. simpl in *.
    pose proof (reference_thumbnail_size_fits x y w h Hw Hh Hdw Hdh) as Hfit.
    simpl in Hfit. tauto.
  - intros im vr vb r b Hr Hb Hr0 Hb0 Hw Hh. simpl. unfold reference_expand. simpl.
    rewrite Hr, Hb. rewrite !Z.add_0_l.
    destruct (Z.leb_spec 0 (width im + r)); [|lia].
    destruct (Z.leb_spec 0 (height im + b)); [|lia]. simpl.
    eexists. split; [reflexivity|]. simpl. split; [done|]. split.
    + intros x y Hx Hy.
      destruct (Z.leb_spec 0 x); [|lia]. destruct (Z.ltb_spec x (width im)); [|lia].
      destruct (Z.leb_spec 0 y); [|lia]. destruct (Z.ltb_spec y (height im)); [|lia].
      simpl. by rewrite !Z.sub_0_r.
    + intros x y Hx Hy Hor.
      destruct (Z.leb_spec 0 x); [|lia]. destruct (Z.leb_spec 0 y); [|lia].
      destruct (Z.ltb_spec x (width im)); destruct (Z.ltb_spec y (height im));
        simpl; try done; lia.
Qed.

Lemma insert_index_perm (a : list Q) (i : nat) (l : list nat) :
  Permutation (insert_index a i l) (i :: l).
Proof.
  induction l as [|j l IH]; simpl; [done|].
  destruct (Qle_bool _ _); [done|].
  rewrite IH. apply perm_swap.
Qed.

Lemma insert_index_sorted (a : list Q) (i : nat) (l : list nat) :
  Sorted Qle (map (λ k, nth k a 0%Q) l) →
  Sorted Qle (map (λ k, nth k a 0%Q) (insert_index a i l)).
Proof.
  induction l as [|j l IH]; simpl; intros Hs.
  - repeat constructor.
  - destruct (Qle_bool (nth i a 0%Q) (nth j a 0%Q)) eqn:Hle; simpl.
    + constructor; [done|]. constructor. by apply Qle_bool_iff.
    + inversion Hs as [|? ? Hs' Hhd]; subst.
      assert (Hji : (nth j a 0 <= nth i a 0)%Q).
      { apply Qlt_le_weak, Qnot_le_lt. intros Hc.
        apply Qle_bool_iff in Hc. congruence. }
      constructor; [by apply IH|].
      destruct l as [|k l]; simpl.
      * by constructor.
      * destruct (Qle_bool (nth i a 0%Q) (nth k a 0%Q)); simpl; constructor; [done|].
        by inversion Hhd.
Qed.

Lemma reference_argsort_contract : ArgsortContract reference_argsort.
Proof.
  intros a. unfold reference_argsort.
  generalize (seq 0 (length a)) as l. intros l. split.
  - induction l as [|i l IH]; simpl; [done|].
    rewrite insert_index_perm. by constructor.
  - apply Sorted_StronglySorted; [intros x y z; apply Qle_trans|].
    induction l as [|i l IH]; simpl; [constructor|].
    by apply insert_index_sorted.
Qed.

(** ** The store monad and the image objects *)

Lemma bind_Ok {A B} (m : M A) (k : A → M B) (σ σ' : store) (a : A) :
  m σ = (Ok a, σ') → bind m k σ = k a σ'.
Proof. intros H. unfold bind. by rewrite H. Qed.

(** A copy is a new object: its reference is not in use, and it differs
    from the reference of the original. *)
Lemma Image_copy_fresh (σ : store) (image : ref) (im : Image) :
  σ !! image = Some im →
  let r := fresh (dom σ) in
  Image_copy image σ = (Ok r, <[r := im]> σ) ∧ σ !! r = None ∧ r ≠ image.
Proof.
  intros Him r. unfold Image_copy. rewrite Him. fold r.
  assert (Hr : σ !! r = None) by (apply not_elem_of_dom, is_fresh).
  repeat split; [done|]. intros ->. congruence.
Qed.

Lemma Image_size_lookup (σ : store) (image : ref) (im : Image) :
  σ !! image = Some im → Image_size image σ = (Ok (im_size im), σ).
Proof. intros H. unfold Image_size. by rewrite H. Qed.

Lemma ImageOps_expand_fresh (pil : Pillow) (σ : store) (image : ref)
    (im im' : Image) (border : pyval * pyval * pyval * pyval) :
  σ !! image = Some im →
  pil_expand pil im border = Ok im' →
  ImageOps_expand pil image border σ = (Ok (fresh (dom σ)), <[fresh (dom σ) := im']> σ).
Proof. intros Him Hexp. unfold ImageOps_expand. by rewrite Him, Hexp. Qed.

Lemma py_sub_int_value (v : pyval) (z n : Z) :
  int_value v = Some z → int_value (py_sub v n) = Some (z - n).
Proof. destruct v; simpl; congruence. Qed.

Lemma py_eq_int_value (v : pyval) (z : Z) :
  int_value v = Some z → py_eq_int z v = true.
Proof. destruct v; simpl; intros [= ->]; apply Z.eqb_refl. Qed.

(** ** The thumbnailer *)

(** What [thumbnail] does on a target size given as two plain or two
    numpy integers: it copies the image and lets Pillow shrink the copy
    in place. *)
Lemma thumbnail_spec (pil : Pillow) (σ : store) (image : ref)
    (im : Image) (desired_size : pyval * pyval) (w h : Z) :
  PillowContract pil →
  σ !! image = Some im →
  1 ≤ width im → 1 ≤ height im → 1 ≤ w → 1 ≤ h →
  desired_size = (PyInt w, PyInt h) ∨ desired_size = (NpInt w, NpInt h) →
  ∃ (thumb : ref) (im' : Image),
    thumbnail pil (Some image) (Some desired_size) σ = (Ok thumb, <[thumb := im']> σ) ∧
    σ !! thumb = None ∧ thumb ≠ image ∧
    1 ≤ width im' ∧ width im' ≤ w ∧ width im' ≤ width im ∧
    1 ≤ height im' ∧ height im' ≤ h ∧ height im' ≤ height im ∧
    aspect_preserved (im_size im) (im_size im') ∧
    pil_thumbnail pil im (PyInt w, PyInt h) = Ok im'.
Proof.
  intros Hpil Him Hw Hh Hdw Hdh Hds.
  destruct (Image_copy_fresh σ image im Him) as (Hcopy & Hfresh & Hne).
  set (r := fresh (dom σ)) in *.
  destruct (thumbnail_contract pil Hpil im w h Hw Hh Hdw Hdh)
    as (im' & Hthumb & Hw1 & Hw' & Hwi & Hh1 & Hh' & Hhi & Hasp).
  exists r, im'.
  assert (Htry : thumbnail_try pil r (fst desired_size) (snd desired_size) (<[r := im]> σ)
                 = (inr tt, <[r := im']> σ)).
  { assert (Hcall : Image_thumbnail pil r (PyInt w, PyInt h) (<[r := im]> σ)
                    = (Ok tt, <[r := im']> σ)).
    { unfold Image_thumbnail. rewrite lookup_insert_eq, Hthumb. simpl.
      by rewrite insert_insert_eq. }
    destruct Hds as [-> | ->]; unfold thumbnail_try; simpl; by rewrite Hcall. }
  repeat split; try done.
  unfold thumbnail.
  do 2 (erewrite bind_Ok; [|reflexivity]).
  erewrite bind_Ok; [|exact Hcopy]. by rewrite Htry.
Qed.

(** C4: on an image and a target size of at least one pixel each way,
    given as plain integers or as numpy integers, [thumbnail] returns a
    new image object; the input object is unchanged; the new image is
    what Pillow's [Image.thumbnail] makes of the input's content for the
    target size as two Python [int]s: it is at least one pixel each way,
    no wider and no higher than the target, no larger than the input, and
    has the input's aspect ratio up to the rounding of one dimension to a
    whole pixel.  The sizes are those Pillow computes, under its
    contract. *)
Theorem thumbnail_fits (pil : Pillow) (σ : store) (image : ref)
    (im : Image) (desired_size : pyval * pyval) (w h : Z) :
  PillowContract pil →
  σ !! image = Some im →
  1 ≤ width im → 1 ≤ height im → 1 ≤ w → 1 ≤ h →
  desired_size = (PyInt w, PyInt h) ∨ desired_size = (NpInt w, NpInt h) →
  ∃ (thumb : ref) (im' : Image),
    thumbnail pil (Some image) (Some desired_size) σ = (Ok thumb, <[thumb := im']> σ) ∧
    pil_thumbnail pil im (PyInt w, PyInt h) = Ok im' ∧
    σ !! thumb = None ∧
    thumb ≠ image ∧
    (<[thumb := im']> σ) !! image = Some im ∧
    1 ≤ width im' ∧ width im' ≤ w ∧
    1 ≤ height im' ∧ height im' ≤ h ∧
    width im' ≤ width im ∧ height im' ≤ height im ∧
    aspect_preserved (im_size im) (im_size im').
Proof.
  intros Hpil Him Hw Hh Hdw Hdh Hds.
  destruct (thumbnail_spec pil σ image im desired_size w h Hpil Him Hw Hh Hdw Hdh Hds)
    as (thumb & im' & Hrun & Hfresh & Hne & Hw1 & Hw' & Hwi & Hh1 & Hh' & Hhi & Hasp & Hpil').
  exists thumb, im'. repeat split; try done.
  by rewrite lookup_insert_ne.
Qed.

(** The 600 by 400 sample image and a 300 by 300 target given as numpy integers. *)
Lemma thumbnail_fits_witness :
  ∃ (thumb : ref) (im' : Image),
    thumbnail reference_pillow (Some 1%positive) (Some (NpInt 300, NpInt 300)) sample_store
      = (Ok thumb, <[thumb := im']> sample_store) ∧
    pil_thumbnail reference_pillow sample_image (PyInt 300, PyInt 300) = Ok im' ∧
    sample_store !! thumb = None ∧
    thumb ≠ 1%positive ∧
    (<[thumb := im']> sample_store) !! 1%positive = Some sample_image ∧
    1 ≤ width im' ∧ width im' ≤ 300 ∧
    1 ≤ height im' ∧ height im' ≤ 300 ∧
    width im' ≤ width sample_image ∧ height im' ≤ height sample_image ∧
    aspect_preserved (im_size sample_image) (im_size im').
Proof.
  apply (thumbnail_fits reference_pillow sample_store 1%positive sample_image
           (NpInt 300, NpInt 300) 300 300 reference_pillow_contract).
  - reflexivity.
  - vm_compute. discriminate.
  - vm_compute. discriminate.
  - lia.
  - lia.
  - by right.
Defined.

(** C8, at a failing input: the guard of the conversion looks at the
    width alone.  With a plain width and a numpy height nothing is
    converted and the numpy height reaches Pillow as it came; with a
    numpy width and a plain height the conversion itself raises, on
    [h.item()], and Pillow is never called. *)
Theorem thumbnail_converts_on_width_only (pil : Pillow) (σ : store) (image : ref)
    (im : Image) (w h : Z) :
  σ !! image = Some im →
  let thumb := fresh (dom σ) in
  thumbnail pil (Some image) (Some (PyInt w, NpInt h)) σ =
    match pil_thumbnail pil im (PyInt w, NpInt h) with
    | inl e => (Raise (RuntimeError (PyInt w, NpInt h) TyInt TyNpInt e), <[thumb := im]> σ)
    | inr im' => (Ok thumb, <[thumb := im']> σ)
    end ∧
  thumbnail pil (Some image) (Some (NpInt w, PyInt h)) σ =
    (Raise (RuntimeError (NpInt w, PyInt h) TyInt TyInt AttributeError), <[thumb := im]> σ).
Proof.
  intros Him thumb.
  destruct (Image_copy_fresh σ image im Him) as (Hcopy & _ & _). fold thumb in Hcopy.
  split; unfold thumbnail.
  - do 2 (erewrite bind_Ok; [|reflexivity]).
    erewrite bind_Ok; [|exact Hcopy].
    unfold thumbnail_try, Image_thumbnail. simpl. rewrite lookup_insert_eq.
    destruct (pil_thumbnail pil im (PyInt w, NpInt h)); simpl; [done|].
    by rewrite insert_insert_eq.
  - do 2 (erewrite bind_Ok; [|reflexivity]).
    erewrite bind_Ok; [|exact Hcopy]. reflexivity.
Qed.

(** On the sample image, with the reference implementation, which takes plain integers only. *)
Lemma thumbnail_converts_on_width_only_witness :
  thumbnail reference_pillow (Some 1%positive) (Some (PyInt 300, NpInt 300)) sample_store =
    (Raise (RuntimeError (PyInt 300, NpInt 300) TyInt TyNpInt TypeError),
     <[fresh (dom sample_store) := sample_image]> sample_store) ∧
  thumbnail reference_pillow (Some 1%positive) (Some (NpInt 300, PyInt 300)) sample_store =
    (Raise (RuntimeError (NpInt 300, PyInt 300) TyInt TyInt AttributeError),
     <[fresh (dom sample_store) := sample_image]> sample_store).
Proof.
  apply (thumbnail_converts_on_width_only reference_pillow sample_store 1%positive
           sample_image 300 300).
  reflexivity.
Defined.

(** ** The padder *)

(** What [resize] does on a thumbnail that fits the target: it copies
    the thumbnail and lets Pillow add the missing columns and rows. *)
Lemma resize_spec (pil : Pillow) (σ : store) (image : ref)
    (im : Image) (desired_size : pyval * pyval) (W H : Z) :
  PillowContract pil →
  σ !! image = Some im →
  int_value (fst desired_size) = Some W →
  int_value (snd desired_size) = Some H →
  0 ≤ width im ≤ W → 0 ≤ height im ≤ H →
  ∃ (new_im : ref) (padded : Image) (σ' : store),
    resize pil (Some image) (Some desired_size) σ = (Ok new_im, σ') ∧
    σ !! new_im = None ∧
    σ' !! new_im = Some padded ∧
    (∀ r x, σ !! r = Some x → σ' !! r = Some x) ∧
    im_size padded = (W, H) ∧
    (∀ x y, 0 ≤ x < width im → 0 ≤ y < height im →
            getpixel padded x y = getpixel im x y) ∧
    (∀ x y, 0 ≤ x < W → 0 ≤ y < H → width im ≤ x ∨ height im ≤ y →
            getpixel padded x y = black).
Proof.
  intros Hpil Him HW HH Hw Hh.
  destruct (Image_copy_fresh σ image im Him) as (Hcopy & Hfresh & Hne).
  set (thumb := fresh (dom σ)) in *.
  set (σ1 := <[thumb := im]> σ).
  destruct (expand_contract pil Hpil im
              (py_sub (fst desired_size) (width im)) (py_sub (snd desired_size) (height im))
              (W - width im) (H - height im))
    as (padded & Hexp & Hsize & Hin & Hout);
    [by apply py_sub_int_value | by apply py_sub_int_value | lia..|].
  set (new_im := fresh (dom σ1)).
  assert (Hnew1 : σ1 !! new_im = None) by (apply not_elem_of_dom, is_fresh).
  assert (Hnew_thumb : new_im ≠ thumb).
  { intros Heq. rewrite Heq in Hnew1. unfold σ1 in Hnew1.
    by rewrite lookup_insert_eq in Hnew1. }
  assert (Hnew : σ !! new_im = None).
  { unfold σ1 in Hnew1. by rewrite lookup_insert_ne in Hnew1. }
  assert (Hnew_image : new_im ≠ image) by (intros ->; congruence).
  assert (Hsz : im_size padded = (W, H)).
  { rewrite Hsize. f_equal; lia. }
  exists new_im, padded, (<[new_im := padded]> σ1).
  split; [|split; [done|split; [|split; [|split; [done|split]]]]].
  - unfold resize.
    do 2 (erewrite bind_Ok; [|reflexivity]).
    erewrite bind_Ok; [|exact Hcopy].
    erewrite bind_Ok; [|apply Image_size_lookup, lookup_insert_eq].
    erewrite bind_Ok; [|apply (ImageOps_expand_fresh _ _ _ im padded);
                        [apply lookup_insert_eq|exact Hexp]].
    fold σ1 new_im.
    erewrite bind_Ok; [|apply Image_size_lookup, lookup_insert_eq].
    erewrite bind_Ok; [reflexivity|].
    unfold lift, size_eq. rewrite Hsz. simpl.
    by rewrite (py_eq_int_value _ _ HW), (py_eq_int_value _ _ HH).
  - apply lookup_insert_eq.
  - intros r x Hr.
    assert (r ≠ new_im) by (intros ->; congruence).
    assert (r ≠ thumb) by (intros ->; congruence).
    rewrite lookup_insert_ne by done. unfold σ1. by rewrite lookup_insert_ne.
  - intros x y Hx Hy. by apply Hin.
  - intros x y Hx Hy Hor. apply Hout; lia.
Qed.

(** C5: on a thumbnail no wider and no higher than the target, [resize]
    returns a new image object of exactly the target size; the thumbnail
    object is unchanged; inside the thumbnail's width and height the new
    image has the thumbnail's samples, and every other sample of it, to
    the right and below, is black.  The padding is Pillow's
    [ImageOps.expand], under its contract. *)
Theorem resize_pads (pil : Pillow) (σ : store) (image : ref)
    (im : Image) (desired_size : pyval * pyval) (W H : Z) :
  PillowContract pil →
  σ !! image = Some im →
  int_value (fst desired_size) = Some W →
  int_value (snd desired_size) = Some H →
  0 ≤ width im ≤ W → 0 ≤ height im ≤ H →
  ∃ (new_im : ref) (padded : Image) (σ' : store),
    resize pil (Some image) (Some desired_size) σ = (Ok new_im, σ') ∧
    σ !! new_im = None ∧
    σ' !! new_im = Some padded ∧
    σ' !! image = Some im ∧
    im_size padded = (W, H) ∧
    (∀ x y, 0 ≤ x < width im → 0 ≤ y < height im →
            getpixel padded x y = getpixel im x y) ∧
    (∀ x y, 0 ≤ x < W → 0 ≤ y < H → width im ≤ x ∨ height im ≤ y →
            getpixel padded x y = black).
Proof.
  intros Hpil Him HW HH Hw Hh.
  destruct (resize_spec pil σ image im desired_size W H Hpil Him HW HH Hw Hh)
    as (new_im & padded & σ' & Hrun & Hnew & Hpadded & Hframe & Hsize & Hin & Hout).
  exists new_im, padded, σ'. repeat split; try done. by apply Hframe.
Qed.

(** The 300 by 200 sample thumbnail, padded to 300 by 300. *)
Lemma resize_pads_witness :
  ∃ (new_im : ref) (padded : Image) (σ' : store),
    resize reference_pillow (Some 1%positive) (Some (NpInt 300, NpInt 300))
      sample_thumbnail_store = (Ok new_im, σ') ∧
    sample_thumbnail_store !! new_im = None ∧
    σ' !! new_im = Some padded ∧
    σ' !! 1%positive = Some sample_thumbnail ∧
    im_size padded = (300, 300) ∧
    (∀ x y, 0 ≤ x < width sample_thumbnail → 0 ≤ y < height sample_thumbnail →
            getpixel padded x y = getpixel sample_thumbnail x y) ∧
    (∀ x y, 0 ≤ x < 300 → 0 ≤ y < 300 →
            width sample_thumbnail ≤ x ∨ height sample_thumbnail ≤ y →
            getpixel padded x y = black).
Proof.
  apply (resize_pads reference_pillow sample_thumbnail_store 1%positive sample_thumbnail
           (NpInt 300, NpInt 300) 300 300 reference_pillow_contract).
  - reflexivity.
  - reflexivity.
  - reflexivity.
  - vm_compute. split; discriminate.
  - vm_compute. split; discriminate.
Defined.

(** ** The scale factors *)

Lemma unit_ratio (a b : Z) :
  1 ≤ a → a ≤ b →
  (0 < inject_Z a / inject_Z b)%Q ∧ (inject_Z a / inject_Z b <= 1)%Q.
Proof.
  intros Ha Hab.
  assert (Hb : (0 < inject_Z b)%Q)
    by (change 0%Q with (inject_Z 0); rewrite <- Zlt_Qlt; lia).
  split.
  - apply Qlt_shift_div_l; [done|]. rewrite Qmult_0_l.
    change 0%Q with (inject_Z 0). rewrite <- Zlt_Qlt. lia.
  - apply Qle_shift_div_r; [done|]. rewrite Qmult_1_l.
    rewrite <- Zle_Qle. lia.
Qed.

Lemma true_div_nonzero (a b : Z) :
  b ≠ 0 → true_div a b = Ok (inject_Z a / inject_Z b)%Q.
Proof. intros Hb. unfold true_div. by destruct (Z.eqb_spec b 0). Qed.

(** The first part of [detect], on an image and a tensor shape of at
    least one pixel each way: the thumbnail, which is a new object with
    what Pillow makes of the image, the padded image, which is another
    new object of the tensor's size with the thumbnail in its top-left
    corner and black elsewhere, and the two ratios. *)
Lemma detect_prepare_full (pil : Pillow) (self : TFImageDetection) (σ : store)
    (image : ref) (im : Image) (n c vh vw : pyval) (W H : Z) :
  PillowContract pil →
  σ !! image = Some im →
  1 ≤ width im → 1 ≤ height im →
  input_shape (_tfengine self) = (n, vh, vw, c) →
  (vw, vh) = (PyInt W, PyInt H) ∨ (vw, vh) = (NpInt W, NpInt H) →
  1 ≤ W → 1 ≤ H →
  ∃ (thumbnail new_im : ref) (thumb padded : Image) (σ' : store),
    detect_prepare pil self (Some image) σ =
      (Ok (thumbnail, new_im,
           (inject_Z (width thumb) / inject_Z (width padded))%Q,
           (inject_Z (height thumb) / inject_Z (height padded))%Q), σ') ∧
    σ' !! thumbnail = Some thumb ∧
    σ' !! new_im = Some padded ∧
    σ' !! image = Some im ∧
    im_size padded = (W, H) ∧
    (1 ≤ width thumb ∧ width thumb ≤ W ∧ 1 ≤ height thumb ∧ height thumb ≤ H) ∧
    (σ !! thumbnail = None ∧ σ !! new_im = None ∧ thumbnail ≠ new_im) ∧
    pil_thumbnail pil im (PyInt W, PyInt H) = Ok thumb ∧
    (∀ x y, 0 ≤ x < width thumb → 0 ≤ y < height thumb →
            getpixel padded x y = getpixel thumb x y) ∧
    (∀ x y, 0 ≤ x < W → 0 ≤ y < H → width thumb ≤ x ∨ height thumb ≤ y →
            getpixel padded x y = black).
Proof.
  intros Hpil Him Hw Hh Hshape Hkind HW HH.
  destruct (thumbnail_spec pil σ image im (vw, vh) W H Hpil Him Hw Hh HW HH Hkind)
    as (thumbnail & thumb & Hthumb & Hfresh & Hne & Hw1 & Hw2 & _ & Hh1 & Hh2 & _ & _ & Hcall).
  set (σ1 := <[thumbnail := thumb]> σ) in *.
  assert (Hvw : int_value vw = Some W) by (destruct Hkind as [[= -> ->]|[= -> ->]]; done).
  assert (Hvh : int_value vh = Some H) by (destruct Hkind as [[= -> ->]|[= -> ->]]; done).
  destruct (resize_spec pil σ1 thumbnail thumb (vw, vh) W H Hpil)
    as (new_im & padded & σ' & Hresize & Hnew & Hpadded & Hframe & Hsize & Hin & Hout);
    [apply lookup_insert_eq | done | done | lia | lia |].
  assert (Hthumb' : σ' !! thumbnail = Some thumb).
  { apply Hframe. apply lookup_insert_eq. }
  assert (Hdiff : thumbnail ≠ new_im).
  { intros Heq. rewrite <- Heq in Hnew. unfold σ1 in Hnew.
    by rewrite lookup_insert_eq in Hnew. }
  assert (Hnew0 : σ !! new_im = None).
  { unfold σ1 in Hnew. by rewrite lookup_insert_ne in Hnew. }
  exists thumbnail, new_im, thumb, padded, σ'.
  split; [|repeat split; try done]; cycle 1.
  { apply Hframe. unfold σ1. by rewrite lookup_insert_ne. }
  unfold detect_prepare.
  erewrite bind_Ok; [|reflexivity].
  rewrite Hshape.
  erewrite bind_Ok; [|exact Hthumb].
  erewrite bind_Ok; [|exact Hresize].
  erewrite bind_Ok; [|apply Image_size_lookup, Hthumb'].
  erewrite bind_Ok; [|apply Image_size_lookup, Hpadded].
  fold (width thumb) (width padded) (height thumb) (height padded).
  assert (HpW : width padded = W) by (unfold width; by rewrite Hsize).
  assert (HpH : height padded = H) by (unfold height; by rewrite Hsize).
  erewrite bind_Ok; [|unfold lift; rewrite true_div_nonzero by lia; reflexivity].
  erewrite bind_Ok; [|unfold lift; rewrite true_div_nonzero by lia; reflexivity].
  reflexivity.
Qed.

Lemma detect_prepare_spec (pil : Pillow) (self : TFImageDetection) (σ : store)
    (image : ref) (im : Image) (n c vh vw : pyval) (W H : Z) :
  PillowContract pil →
  σ !! image = Some im →
  1 ≤ width im → 1 ≤ height im →
  input_shape (_tfengine self) = (n, vh, vw, c) →
  (vw, vh) = (PyInt W, PyInt H) ∨ (vw, vh) = (NpInt W, NpInt H) →
  1 ≤ W → 1 ≤ H →
  ∃ (thumbnail new_im : ref) (thumb padded : Image) (σ' : store),
    detect_prepare pil self (Some image) σ =
      (Ok (thumbnail, new_im,
           (inject_Z (width thumb) / inject_Z (width padded))%Q,
           (inject_Z (height thumb) / inject_Z (height padded))%Q), σ') ∧
    σ' !! thumbnail = Some thumb ∧
    σ' !! new_im = Some padded ∧
    σ' !! image = Some im ∧
    im_size padded = (W, H) ∧
    1 ≤ width thumb ∧ width thumb ≤ W ∧
    1 ≤ height thumb ∧ height thumb ≤ H.
Proof.
  intros Hpil Him Hw Hh Hshape Hkind HW HH.
  destruct (detect_prepare_full pil self σ image im n c vh vw W H
              Hpil Him Hw Hh Hshape Hkind HW HH)
    as (thumbnail & new_im & thumb & padded & σ' & Hprep & Hthumb & Hpadded & Hkeep
        & Hsize & (Hw1 & Hw2 & Hh1 & Hh2) & _).
  by exists thumbnail, new_im, thumb, padded, σ'.
Qed.

(** C6: in a call of [detect] on an image and a tensor shape of at least
    one pixel each way, the padded image has the tensor's width and
    height, [w_factor] is the thumbnail's width over the padded image's
    width, [h_factor] the thumbnail's height over the padded image's
    height, and both lie in (0, 1]. *)
Theorem detect_scale_factors (pil : Pillow) (self : TFImageDetection) (σ : store)
    (image : ref) (im : Image) (n c vh vw : pyval) (W H : Z) :
  PillowContract pil →
  σ !! image = Some im →
  1 ≤ width im → 1 ≤ height im →
  input_shape (_tfengine self) = (n, vh, vw, c) →
  (vw, vh) = (PyInt W, PyInt H) ∨ (vw, vh) = (NpInt W, NpInt H) →
  1 ≤ W → 1 ≤ H →
  ∃ (thumbnail new_im : ref) (thumb padded : Image) (w_factor h_factor : Q) (σ' : store),
    detect_prepare pil self (Some image) σ =
      (Ok (thumbnail, new_im, w_factor, h_factor), σ') ∧
    σ' !! thumbnail = Some thumb ∧
    σ' !! new_im = Some padded ∧
    im_size padded = (W, H) ∧
    w_factor = (inject_Z (width thumb) / inject_Z (width padded))%Q ∧
    h_factor = (inject_Z (height thumb) / inject_Z (height padded))%Q ∧
    (0 < w_factor)%Q ∧ (w_factor <= 1)%Q ∧
    (0 < h_factor)%Q ∧ (h_factor <= 1)%Q.
Proof.
  intros Hpil Him Hw Hh Hshape Hkind HW HH.
  destruct (detect_prepare_spec pil self σ image im n c vh vw W H
              Hpil Him Hw Hh Hshape Hkind HW HH)
    as (thumbnail & new_im & thumb & padded & σ' & Hprep & Hthumb & Hpadded & _
        & Hsize & Hw1 & Hw2 & Hh1 & Hh2).
  exists thumbnail, new_im, thumb, padded,
    (inject_Z (width thumb) / inject_Z (width padded))%Q,
    (inject_Z (height thumb) / inject_Z (height padded))%Q, σ'.
  assert (HpW : width padded = W) by (unfold width; by rewrite Hsize).
  assert (HpH : height padded = H) by (unfold height; by rewrite Hsize).
  destruct (unit_ratio (width thumb) (width padded)) as [? ?]; [lia..|].
  destruct (unit_ratio (height thumb) (height padded)) as [? ?]; [lia..|].
  repeat split; done.
Qed.

(** The sample image and a 300 by 300 tensor. *)
Lemma detect_scale_factors_witness :
  ∃ (thumbnail new_im : ref) (thumb padded : Image) (w_factor h_factor : Q) (σ' : store),
    detect_prepare reference_pillow (sample_detector 3 sample_labels (one_candidate 1))
      (Some 1%positive) sample_store =
      (Ok (thumbnail, new_im, w_factor, h_factor), σ') ∧
    σ' !! thumbnail = Some thumb ∧
    σ' !! new_im = Some padded ∧
    im_size padded = (300, 300) ∧
    w_factor = (inject_Z (width thumb) / inject_Z (width padded))%Q ∧
    h_factor = (inject_Z (height thumb) / inject_Z (height padded))%Q ∧
    (0 < w_factor)%Q ∧ (w_factor <= 1)%Q ∧
    (0 < h_factor)%Q ∧ (h_factor <= 1)%Q.
Proof.
  apply (detect_scale_factors reference_pillow
           (sample_detector 3 sample_labels (one_candidate 1))
           sample_store 1%positive sample_image
           (NpInt 1) (NpInt 3) (NpInt 300) (NpInt 300) 300 300
           reference_pillow_contract).
  - reflexivity.
  - vm_compute. discriminate.
  - vm_compute. discriminate.
  - reflexivity.
  - by right.
  - lia.
  - lia.
Defined.

(** ** The ranking loop *)

(** Python's [min] on two numbers is the minimum. *)
Lemma py_min_Qmin (a b : Q) : py_min a b = Qmin a b.
Proof.
  unfold py_min, Qmin, GenericMinMax.gmin.
  rewrite <- (Qcompare_antisym a b). by destruct (a ?= b)%Q.
Qed.

Section Ranking.

Variable labels : gmap Z string.
Variable out : OutputTensors.
Variables threshold w_factor h_factor : Q.

Lemma detect_candidate_emitted (acc : list Detection) (i : nat) (d : Detection) :
  emitted labels out threshold w_factor h_factor i d →
  detect_candidate labels out threshold w_factor h_factor acc i = Ok (acc ++ [d]).
Proof.
  intros (confidence & code & label & box & Hs & Hthr & Hc & Hlt & Hl & Hb & ->).
  unfold detect_candidate, index, dict_getitem. rewrite Hs. simpl.
  apply Qle_bool_iff in Hthr. rewrite Hthr. rewrite Hc. simpl.
  destruct (Z.ltb_spec (int_of_float code) (Z.of_nat (size labels))); [|lia].
  rewrite Hl. simpl. rewrite Hb. simpl. reflexivity.
Qed.


(** A step of the loop that does not raise either rejects the candidate
    and leaves the list alone, or appends the detection of the candidate. *)
Lemma detect_candidate_inv (acc acc' : list Detection) (i : nat) :
  detect_candidate labels out threshold w_factor h_factor acc i = Ok acc' →
  (rejected labels out threshold i ∧ acc' = acc) ∨
  (∃ d, emitted labels out threshold w_factor h_factor i d ∧ acc' = acc ++ [d]).
Proof.
  unfold detect_candidate, index, dict_getitem.
  destruct (scores out !! i) as [confidence|] eqn:Hs; simpl; [|done].
  destruct (Qle_bool threshold confidence) eqn:Hle.
  - destruct (label_codes out !! i) as [code|] eqn:Hc; simpl; [|done].
    destruct (Z.ltb_spec (int_of_float code) (Z.of_nat (size labels))) as [Hlt|Hge].
    + destruct (labels !! int_of_float code) as [label|] eqn:Hl; simpl; [|done].
      destruct (boxes out !! i) as [box|] eqn:Hb; simpl; [|done].
      intros [= <-]. right. eexists. split; [|reflexivity].
      exists confidence, code, label, box. repeat split; try done.
      by apply Qle_bool_iff.
    + intros [= <-]. left. split; [|done].
      exists confidence. split; [done|]. right. by exists code.
  - intros [= <-]. left. split; [|done].
    exists confidence. split; [done|]. left.
    apply Qnot_le_lt. intros Hc. apply Qle_bool_iff in Hc. congruence.
Qed.

(** A run of the loop that does not raise appends, in order, the
    detections of a sublist of the candidates. *)
Lemma detect_loop_inv (indices : list nat) (acc ds : list Detection) :
  detect_loop labels out threshold w_factor h_factor acc indices = Ok ds →
  ∃ (picked : list nat) (new : list Detection),
    picked `sublist_of` indices ∧
    Forall2 (emitted labels out threshold w_factor h_factor) picked new ∧
    ds = acc ++ new.
Proof.
  revert acc. induction indices as [|i indices IH]; intros acc; simpl.
  - intros [= <-]. exists [], []. by rewrite app_nil_r.
  - destruct (detect_candidate _ _ _ _ _ acc i) as [e|acc'] eqn:Hcand; simpl; [done|].
    intros Hloop. destruct (IH _ Hloop) as (picked & new & Hsub & Hall & ->).
    destruct (detect_candidate_inv _ _ _ Hcand) as [[_ ->]|(d & Hd & ->)].
    + exists picked, new. split; [by constructor|done].
    + exists (i :: picked), (d :: new). split; [by constructor|].
      split; [by constructor|]. by rewrite <- app_assoc.
Qed.


(** A candidate that passes the tests is in the result. *)
Lemma detect_loop_includes (indices : list nat) (acc ds : list Detection)
    (i : nat) (d : Detection) :
  detect_loop labels out threshold w_factor h_factor acc indices = Ok ds →
  i ∈ indices →
  emitted labels out threshold w_factor h_factor i d →
  d ∈ ds.
Proof.
  revert acc. induction indices as [|j indices IH]; intros acc Hloop Hin Hd.
  - by apply elem_of_nil in Hin.
  - simpl in Hloop.
    destruct (detect_candidate _ _ _ _ _ acc j) as [e|acc'] eqn:Hcand;
      simpl in Hloop; [done|].
    apply elem_of_cons in Hin as [->|Hin].
    + rewrite (detect_candidate_emitted _ _ _ Hd) in Hcand. injection Hcand as <-.
      destruct (detect_loop_inv _ _ _ Hloop) as (_ & new & _ & _ & ->).
      rewrite !elem_of_app. left. right. by left.
    + by eapply IH.
Qed.

End Ranking.

(** ** The whole of [detect] *)

Lemma Image_load_lookup (σ : store) (image : ref) (im : Image) :
  σ !! image = Some im → Image_load image σ = (Ok im, σ).
Proof. intros H. unfold Image_load. by rewrite H. Qed.

(** On an image and a tensor shape of at least one pixel each way,
    [detect] returns the thumbnail, the padded image and what the ranking
    loop makes of the engine's output, or raises what the loop raises. *)
Lemma detect_spec (pil : Pillow) (argsort : list Q → list nat)
    (self : TFImageDetection) (σ : store)
    (image : ref) (im : Image) (n c vh vw : pyval) (W H : Z) :
  PillowContract pil →
  σ !! image = Some im →
  1 ≤ width im → 1 ≤ height im →
  input_shape (_tfengine self) = (n, vh, vw, c) →
  (vw, vh) = (PyInt W, PyInt H) ∨ (vw, vh) = (NpInt W, NpInt H) →
  1 ≤ W → 1 ≤ H →
  ∃ (thumbnail new_im : ref) (thumb padded : Image) (σ' : store),
    σ' !! thumbnail = Some thumb ∧
    σ' !! new_im = Some padded ∧
    σ' !! image = Some im ∧
    im_size padded = (W, H) ∧
    1 ≤ width thumb ∧ width thumb ≤ W ∧
    1 ≤ height thumb ∧ height thumb ≤ H ∧
    detect pil argsort self (Some image) σ =
      match detect_rank argsort self
              (infer (_tfengine self) (input_data (is_quantized (_tfengine self)) padded))
              (inject_Z (width thumb) / inject_Z (width padded))%Q
              (inject_Z (height thumb) / inject_Z (height padded))%Q with
      | inl e => (Raise e, σ')
      | inr inference_result => (Ok (thumbnail, new_im, inference_result), σ')
      end.
Proof.
  intros Hpil Him Hw Hh Hshape Hkind HW HH.
  destruct (detect_prepare_spec pil self σ image im n c vh vw W H
              Hpil Him Hw Hh Hshape Hkind HW HH)
    as (thumbnail & new_im & thumb & padded & σ' & Hprep & Hthumb & Hpadded & Hkeep
        & Hsize & Hbounds).
  exists thumbnail, new_im, thumb, padded, σ'.
  repeat split; try tauto.
  unfold detect.
  erewrite bind_Ok; [|exact Hprep]. cbv beta iota zeta.
  erewrite bind_Ok; [|by apply Image_load_lookup].
  unfold bind, lift, ret.
  by destruct (detect_rank _ _ _ _ _).
Qed.

(** ** The window of candidates *)


Lemma argsort_singleton (argsort : list Q → list nat) (s : Q) :
  ArgsortContract argsort → argsort [s] = [0%nat].
Proof.
  intros Hargsort. destruct (Hargsort [s]) as [Hperm _].
  by apply Permutation_singleton_r.
Qed.

(** With a [top_k] of zero the slice [[-0:]] keeps every index. *)
Lemma top_k_indices_zero (argsort : list Q → list nat)
    (self : TFImageDetection) (out : OutputTensors) :
  top_k (_tfengine self) = 0 →
  top_k_indices argsort self out =
  rev (argsort (py_slice_to (int_of_float (num out)) (scores out))).
Proof.
  intros Hk. unfold top_k_indices. rewrite Hk.
  unfold py_slice_from, slice_bound. simpl.
  by replace (Z.to_nat (Z.min 0 _)) with 0%nat by lia.
Qed.

(** With a [top_k] of at least one the window has at most [top_k]
    indices. *)
Lemma top_k_window_length {A} (k : Z) (l : list A) :
  1 ≤ k → Z.of_nat (length (py_slice_from (-1 * k) l)) ≤ k.
Proof.
  intros Hk. unfold py_slice_from, slice_bound. rewrite length_drop.
  destruct (Z.ltb_spec (-1 * k) 0); lia.
Qed.

(** The window of one candidate is that candidate, for every [top_k]
    that is not negative. *)
Lemma top_k_indices_one_candidate (argsort : list Q → list nat)
    (k : Z) (labels : gmap Z string) (code : Q) :
  ArgsortContract argsort → 0 ≤ k →
  top_k_indices argsort (sample_detector k labels (one_candidate code)) (one_candidate code)
  = [0%nat].
Proof.
  intros Hargsort Hk. unfold top_k_indices.
  change (py_slice_to _ _) with [(9 # 10)%Q].
  rewrite (argsort_singleton _ _ Hargsort).
  unfold py_slice_from, slice_bound. simpl top_k. simpl length.
  destruct (Z.ltb_spec (-1 * k) 0).
  - replace (Z.to_nat (Z.max 0 (-1 * k + Z.of_nat 1))) with 0%nat by lia. done.
  - replace (Z.to_nat (Z.min (-1 * k) (Z.of_nat 1))) with 0%nat by lia. done.
Qed.


(** ** Sorted lists *)

Section SortedLists.

Context {A B : Type}.

Lemma StronglySorted_map (R : B → B → Prop) (f : A → B) (l : list A) :
  StronglySorted R (map f l) → StronglySorted (λ x y, R (f x) (f y)) l.
Proof.
  induction l as [|x l IH]; simpl; intros Hs; [constructor|].
  apply StronglySorted_inv in Hs as [Hs Hall].
  constructor; [by apply IH|].
  by apply List.Forall_map.
Qed.

Lemma StronglySorted_sublist (R : A → A → Prop) (l1 l2 : list A) :
  l1 `sublist_of` l2 → StronglySorted R l2 → StronglySorted R l1.
Proof.
  induction 1 as [|x l1 l2 Hsub IH|x l1 l2 Hsub IH]; intros Hs; [done| |].
  - apply StronglySorted_inv in Hs as [Hs Hall].
    constructor; [by apply IH|].
    rewrite List.Forall_forall in Hall |- *. intros y Hy. apply Hall.
    apply list_elem_of_In. eapply elem_of_sublist; [|done]. by apply list_elem_of_In.
  - apply StronglySorted_inv in Hs as [Hs _]. by apply IH.
Qed.

Lemma StronglySorted_snoc (R : A → A → Prop) (l : list A) (x : A) :
  StronglySorted R l → Forall (λ y, R y x) l → StronglySorted R (l ++ [x]).
Proof.
  induction l as [|y l IH]; simpl; intros Hs Hall.
  - repeat constructor.
  - apply StronglySorted_inv in Hs as [Hs Hy].
    apply Forall_cons in Hall as [Hyx Hall].
    constructor; [by apply IH|].
    apply Forall_app. split; [done|by constructor].
Qed.

Lemma StronglySorted_rev (R : A → A → Prop) (l : list A) :
  StronglySorted R l → StronglySorted (flip R) (rev l).
Proof.
  induction 1 as [|x l Hs IH Hall]; simpl; [constructor|].
  apply StronglySorted_snoc; [done|].
  rewrite List.Forall_forall in Hall |- *. intros y Hy. apply Hall.
  by apply in_rev.
Qed.

(** Sortedness carries over along a pairing of two lists. *)
Lemma StronglySorted_Forall2 (S : A → A → Prop) (T : B → B → Prop) (E : A → B → Prop)
    (l : list A) (k : list B) :
  (∀ x y u v, E x u → E y v → S x y → T u v) →
  Forall2 E l k → StronglySorted S l → StronglySorted T k.
Proof.
  intros Hmono Hall. induction Hall as [|x u l k Hxu Hall IH]; intros Hs; [constructor|].
  apply StronglySorted_inv in Hs as [Hs Hx].
  constructor; [by apply IH|].
  clear IH Hs. induction Hall as [|y v l k Hyv Hall IH]; [constructor|].
  apply Forall_cons in Hx as [Hxy Hx].
  constructor; [by eapply Hmono|by apply IH].
Qed.

End SortedLists.

(** ** The detections [detect] returns *)

(** C1, at a failing input: with [top_k] configured as zero and one
    detection of confidence 0.9 reported by the engine, [detect] returns
    that detection: one entry, where at most zero are claimed. *)
Theorem detect_top_k_zero (pil : Pillow) (argsort : list Q → list nat)
    (σ : store) (image : ref) (im : Image) :
  PillowContract pil → ArgsortContract argsort →
  σ !! image = Some im → 1 ≤ width im → 1 ≤ height im →
  let self := sample_detector 0 sample_labels (one_candidate 1) in
  top_k (_tfengine self) = 0 ∧
  ∃ (thumbnail new_im : ref) (d : Detection) (σ' : store),
    detect pil argsort self (Some image) σ = (Ok (thumbnail, new_im, [d]), σ') ∧
    fst d = ("person"%string, (9 # 10)%Q).
Proof.
  intros Hpil Hargsort Him Hw Hh self. split; [done|].
  destruct (detect_spec pil argsort self σ image im
              (NpInt 1) (NpInt 3) (NpInt 300) (NpInt 300) 300 300)
    as (thumbnail & new_im & thumb & padded & σ' & _ & _ & _ & _ & _ & _ & _ & _ & Hrun);
    [done | done | done | done | done | by right | lia | lia |].
  exists thumbnail, new_im. rewrite Hrun. clear Hrun. subst self.
  unfold detect_rank. simpl infer.
  rewrite (top_k_indices_one_candidate argsort 0 sample_labels 1 Hargsort) by lia.
  eexists _, σ'. split; reflexivity.
Qed.

(** With the reference implementations, on the sample image. *)
Lemma detect_top_k_zero_witness :
  top_k (_tfengine (sample_detector 0 sample_labels (one_candidate 1))) = 0 ∧
  ∃ (thumbnail new_im : ref) (d : Detection) (σ' : store),
    detect reference_pillow reference_argsort
      (sample_detector 0 sample_labels (one_candidate 1)) (Some 1%positive) sample_store
      = (Ok (thumbnail, new_im, [d]), σ') ∧
    fst d = ("person"%string, (9 # 10)%Q).
Proof.
  apply (detect_top_k_zero reference_pillow reference_argsort sample_store 1%positive
           sample_image reference_pillow_contract reference_argsort_contract).
  - reflexivity.
  - vm_compute. discriminate.
  - vm_compute. discriminate.
Defined.

(** C2, at a failing input: a label map with the keys 0 and 2.  A
    detection of confidence 0.9 with the label code 1, which is no key of
    the map but less than its size, makes [detect] raise [KeyError]; one
    with the label code 2, which is a key of the map but not less than
    its size, is dropped. *)
Theorem detect_sparse_label_map (pil : Pillow) (argsort : list Q → list nat)
    (σ : store) (image : ref) (im : Image) :
  PillowContract pil → ArgsortContract argsort →
  σ !! image = Some im → 1 ≤ width im → 1 ≤ height im →
  (sparse_labels !! 1 = None ∧ 1 < Z.of_nat (size sparse_labels) ∧
   ∃ σ' : store,
     detect pil argsort (sample_detector 3 sparse_labels (one_candidate 1)) (Some image) σ
     = (Raise (KeyError 1), σ')) ∧
  (sparse_labels !! 2 = Some "person"%string ∧
   ∃ (thumbnail new_im : ref) (σ' : store),
     detect pil argsort (sample_detector 3 sparse_labels (one_candidate 2)) (Some image) σ
     = (Ok (thumbnail, new_im, []), σ')).
Proof.
  intros Hpil Hargsort Him Hw Hh. split.
  - split; [done|]. split; [by vm_compute|].
    destruct (detect_spec pil argsort (sample_detector 3 sparse_labels (one_candidate 1))
                σ image im (NpInt 1) (NpInt 3) (NpInt 300) (NpInt 300) 300 300)
      as (thumbnail & new_im & thumb & padded & σ' & _ & _ & _ & _ & _ & _ & _ & _ & Hrun);
      [done | done | done | done | done | by right | lia | lia |].
    exists σ'. rewrite Hrun. clear Hrun.
    unfold detect_rank. simpl infer.
    rewrite (top_k_indices_one_candidate argsort 3 sparse_labels 1 Hargsort) by lia.
    reflexivity.
  - split; [done|].
    destruct (detect_spec pil argsort (sample_detector 3 sparse_labels (one_candidate 2))
                σ image im (NpInt 1) (NpInt 3) (NpInt 300) (NpInt 300) 300 300)
      as (thumbnail & new_im & thumb & padded & σ' & _ & _ & _ & _ & _ & _ & _ & _ & Hrun);
      [done | done | done | done | done | by right | lia | lia |].
    exists thumbnail, new_im, σ'. rewrite Hrun. clear Hrun.
    unfold detect_rank. simpl infer.
    rewrite (top_k_indices_one_candidate argsort 3 sparse_labels 2 Hargsort) by lia.
    reflexivity.
Qed.

(** With the reference implementations, on the sample image. *)
Lemma detect_sparse_label_map_witness :
  (sparse_labels !! 1 = None ∧ 1 < Z.of_nat (size sparse_labels) ∧
   ∃ σ' : store,
     detect reference_pillow reference_argsort
       (sample_detector 3 sparse_labels (one_candidate 1)) (Some 1%positive) sample_store
     = (Raise (KeyError 1), σ')) ∧
  (sparse_labels !! 2 = Some "person"%string ∧
   ∃ (thumbnail new_im : ref) (σ' : store),
     detect reference_pillow reference_argsort
       (sample_detector 3 sparse_labels (one_candidate 2)) (Some 1%positive) sample_store
     = (Ok (thumbnail, new_im, []), σ')).
Proof.
  apply (detect_sparse_label_map reference_pillow reference_argsort sample_store 1%positive
           sample_image reference_pillow_contract reference_argsort_contract).
  - reflexivity.
  - vm_compute. discriminate.
  - vm_compute. discriminate.
Defined.

(** C3: whatever the two scale factors are, every detection the ranking
    loop emits carries the box of its candidate, laid out as (ymin, xmin,
    ymax, xmax), back-projected as x0 = xmin / w_factor, y0 = ymin /
    h_factor, x1 = min(xmax / w_factor, 1) and y1 = min(ymax / h_factor,
    1): x1 and y1 are cut at 1 from above and nothing is cut from below. *)
Theorem detect_boxes_back_projected (argsort : list Q → list nat)
    (self : TFImageDetection) (out : OutputTensors) (w_factor h_factor : Q)
    (inference_result : list Detection) :
  detect_rank argsort self out w_factor h_factor = Ok inference_result →
  Forall (λ d : Detection,
            ∃ (i : nat) (box : Box),
              i ∈ top_k_indices argsort self out ∧
              scores out !! i = Some (confidence_of d) ∧
              boxes out !! i = Some box ∧
              snd d = ((xmin box / w_factor)%Q,
                       (ymin box / h_factor)%Q,
                       Qmin (xmax box / w_factor) 1,
                       Qmin (ymax box / h_factor) 1))
         inference_result.
Proof.
  unfold detect_rank. intros Hloop.
  destruct (detect_loop_inv _ _ _ _ _ _ _ _ Hloop) as (picked & new & Hsub & Hall & ->).
  simpl. clear Hloop.
  assert (Hin : ∀ i, i ∈ picked → i ∈ top_k_indices argsort self out).
  { intros i Hi. by eapply elem_of_sublist. }
  clear Hsub. induction Hall as [|i d picked new Hd Hall IH]; [constructor|].
  constructor.
  - destruct Hd as (confidence & code & label & box & Hs & _ & _ & _ & _ & Hb & ->).
    exists i, box. repeat split; try done.
    + apply Hin. by left.
    + unfold back_projected. simpl. by rewrite !py_min_Qmin.
  - apply IH. intros j Hj. apply Hin. by right.
Qed.

(** The two detections of the sample output, with the scale factors 1 and 2/3. *)
Lemma detect_boxes_back_projected_witness :
  Forall (λ d : Detection,
            ∃ (i : nat) (box : Box),
              i ∈ top_k_indices reference_argsort
                    (sample_detector 3 sample_labels sample_output) sample_output ∧
              scores sample_output !! i = Some (confidence_of d) ∧
              boxes sample_output !! i = Some box ∧
              snd d = ((xmin box / 1)%Q,
                       (ymin box / (2 # 3))%Q,
                       Qmin (xmax box / 1) 1,
                       Qmin (ymax box / (2 # 3)) 1))
         sample_result.
Proof.
  apply (detect_boxes_back_projected reference_argsort
           (sample_detector 3 sample_labels sample_output) sample_output 1 (2 # 3)
           sample_result).
  reflexivity.
Defined.

(** The second box of [sample_output] starts above the image: its
    negative ymin is passed on as a negative y0, and its y1 is cut at 1. *)
Example sample_result_boxes :
  map snd sample_result =
  [ ((0 # 1)%Q, (-3 # 20)%Q, (1 # 1)%Q, 1%Q);
    ((2 # 10)%Q, (3 # 20)%Q, (6 # 10)%Q, (12 # 20)%Q) ].
Proof. reflexivity. Qed.

(** X1: with a [top_k] of at least one, the list the ranking loop returns
    has at most [top_k] entries, is in descending order of confidence,
    holds no confidence below the threshold, and holds every candidate of
    the window that passes the two tests and whose label code is a key of
    the label map, a confidence equal to the threshold included. *)
Theorem detect_rank_top_k (argsort : list Q → list nat)
    (self : TFImageDetection) (out : OutputTensors) (w_factor h_factor : Q)
    (inference_result : list Detection) :
  ArgsortContract argsort →
  1 ≤ top_k (_tfengine self) →
  detect_rank argsort self out w_factor h_factor = Ok inference_result →
  Z.of_nat (length inference_result) ≤ top_k (_tfengine self) ∧
  StronglySorted (λ d1 d2, (confidence_of d2 <= confidence_of d1)%Q) inference_result ∧
  Forall (λ d, (confidence_threshold (_tfengine self) <= confidence_of d)%Q)
         inference_result ∧
  (∀ (i : nat) (d : Detection),
     i ∈ top_k_indices argsort self out →
     emitted (_labels self) out (confidence_threshold (_tfengine self))
             w_factor h_factor i d →
     d ∈ inference_result).
Proof.
  intros Hargsort Hk Hrank. unfold detect_rank in Hrank.
  destruct (detect_loop_inv _ _ _ _ _ _ _ _ Hrank) as (picked & new & Hsub & Hall & ->).
  simpl. split; [|split; [|split]].
  - (* at most top_k *)
    rewrite <- (Forall2_length _ _ _ Hall).
    apply sublist_length in Hsub. unfold top_k_indices in Hsub.
    rewrite length_rev in Hsub.
    etrans; [|apply (top_k_window_length (top_k (_tfengine self))
                       (argsort (py_slice_to (int_of_float (num out)) (scores out))) Hk)].
    lia.
  - (* descending confidence *)
    set (a := py_slice_to (int_of_float (num out)) (scores out)) in *.
    destruct (Hargsort a) as [Hperm Hsorted].
    set (key := λ i : nat, nth i a 0%Q).
    assert (Hwin : StronglySorted (flip (λ i j, (key i <= key j)%Q))
                     (top_k_indices argsort self out)).
    { unfold top_k_indices. fold a. apply StronglySorted_rev.
      eapply StronglySorted_sublist; [apply sublist_drop|].
      by apply StronglySorted_map. }
    assert (Hkey : Forall2 (λ i d, key i = confidence_of d) picked new).
    { assert (Hrange : ∀ i, i ∈ picked → (i < length a)%nat).
      { intros i Hi.
        assert (Hi' : i ∈ argsort a).
        { apply (elem_of_sublist _ _ _ Hi) in Hsub. unfold top_k_indices in Hsub.
          fold a in Hsub. apply list_elem_of_In, in_rev, list_elem_of_In in Hsub.
          by eapply elem_of_sublist; [|apply sublist_drop]. }
        rewrite Hperm in Hi'. apply elem_of_seq in Hi'. lia. }
      clear Hsub Hrank Hwin.
      induction Hall as [|i d picked new Hd Hall IH]; [constructor|].
      constructor.
      - destruct Hd as (confidence & code & label & box & Hs & _ & _ & _ & _ & _ & ->).
        unfold key, confidence_of. simpl.
        assert (Hi : (i < length a)%nat) by (apply Hrange; by left).
        destruct (lookup_lt_is_Some_2 a i Hi) as [x Hx].
        rewrite (nth_lookup_Some _ _ _ _ Hx).
        unfold a, py_slice_to in Hx. apply lookup_take_Some in Hx as [Hx _]. congruence.
      - apply IH. intros j Hj. apply Hrange. by right. }
    eapply (StronglySorted_Forall2 (flip (λ i j, (key i <= key j)%Q)) _ _ picked new);
      [|exact Hkey|].
    + intros i j d e Hi Hj Hij. unfold flip in Hij. cbv beta in *.
      by rewrite <- Hi, <- Hj.
    + by eapply StronglySorted_sublist.
  - (* at least the threshold *)
    clear Hsub Hrank. induction Hall as [|i d picked new Hd Hall IH]; constructor; [|done].
    by destruct Hd as (confidence & code & label & box & _ & Hthr & _ & _ & _ & _ & ->).
  - (* a passing candidate of the window is in the result *)
    intros i d Hi Hd. by eapply detect_loop_includes.
Qed.

(** The two detections of the sample output, with a window of three. *)
Lemma detect_rank_top_k_witness :
  Z.of_nat (length sample_result) ≤ 3 ∧
  StronglySorted (λ d1 d2, (confidence_of d2 <= confidence_of d1)%Q) sample_result ∧
  Forall (λ d, (6 # 10 <= confidence_of d)%Q) sample_result ∧
  (∀ (i : nat) (d : Detection),
     i ∈ top_k_indices reference_argsort
           (sample_detector 3 sample_labels sample_output) sample_output →
     emitted sample_labels sample_output (6 # 10) 1 (2 # 3) i d →
     d ∈ sample_result).
Proof.
  apply (detect_rank_top_k reference_argsort
           (sample_detector 3 sample_labels sample_output) sample_output 1 (2 # 3)
           sample_result reference_argsort_contract).
  - simpl. lia.
  - reflexivity.
Defined.

(** The scenario of the specification, run with the reference
    implementations: a 600 by 400 image and a 300 by 300 tensor give a
    300 by 200 thumbnail and a 300 by 300 padded image, and the raw box
    (ymin 0.1, xmin 0.2, ymax 0.4, xmax 0.6) comes back as x0 = 0.2,
    y0 = 0.15, x1 = 0.6, y1 = 0.6. *)
Example detect_end_to_end :
  ∃ (thumbnail new_im : ref) (thumb padded : Image) (x0 y0 x1 y1 : Q) (σ' : store),
    detect reference_pillow reference_argsort
      (sample_detector 3 sample_labels (one_candidate 1)) (Some 1%positive) sample_store
      = (Ok (thumbnail, new_im, [("person"%string, (9 # 10)%Q, (x0, y0, x1, y1))]), σ') ∧
    σ' !! thumbnail = Some thumb ∧ im_size thumb = (300, 200) ∧
    σ' !! new_im = Some padded ∧ im_size padded = (300, 300) ∧
    (x0 == 2 # 10)%Q ∧ (y0 == 15 # 100)%Q ∧ (x1 == 6 # 10)%Q ∧ (y1 == 6 # 10)%Q.
Proof.
  do 9 eexists. split; [reflexivity|].
  split; [reflexivity|]. split; [reflexivity|].
  split; [reflexivity|]. split; [reflexivity|].
  repeat split.
Qed.

(** ** Further properties *)

(** X2: on an image object, [thumbnail] does one of three things.  When
    the width is a numpy scalar and the height is not, the conversion of
    the height fails and a [RuntimeError] is raised that carries the
    desired size as it was given, [int] as the type of the width, which
    was converted, the type of the height as given, and the
    [AttributeError] that was caught.  Otherwise Pillow is called on the
    copy, with the two dimensions converted to [int] when the width is a
    numpy scalar and as they were given when it is not; when Pillow
    raises, a [RuntimeError] is raised that carries the desired size as
    it was given, the types of the two values Pillow was called with and
    the exception Pillow raised; when Pillow returns, the copy is
    returned.  When a [RuntimeError] is raised the copy has been made and
    is as the input was. *)
Theorem thumbnail_reports_failure (pil : Pillow) (σ : store) (image : ref) (im : Image)
    (w h : pyval) :
  σ !! image = Some im →
  let thumb := fresh (dom σ) in
  let called_with :=
    if is_np_generic w then (PyInt (py_int w), PyInt (py_int h)) else (w, h) in
  (is_np_generic w = true ∧ is_np_generic h = false ∧
   thumbnail pil (Some image) (Some (w, h)) σ
   = (Raise (RuntimeError (w, h) TyInt (type_of h) AttributeError), <[thumb := im]> σ)) ∨
  (∃ cause : exn,
     (is_np_generic w = true → is_np_generic h = true) ∧
     pil_thumbnail pil im called_with = Raise cause ∧
     thumbnail pil (Some image) (Some (w, h)) σ
     = (Raise (RuntimeError (w, h) (type_of (fst called_with)) (type_of (snd called_with))
                 cause),
        <[thumb := im]> σ)) ∨
  (∃ im' : Image,
     (is_np_generic w = true → is_np_generic h = true) ∧
     pil_thumbnail pil im called_with = Ok im' ∧
     thumbnail pil (Some image) (Some (w, h)) σ = (Ok thumb, <[thumb := im']> σ)).
Proof.
  intros Him thumb called_with.
  destruct (Image_copy_fresh σ image im Him) as (Hcopy & _ & _). fold thumb in Hcopy.
  unfold thumbnail.
  do 2 (erewrite bind_Ok; [|reflexivity]).
  erewrite bind_Ok; [|exact Hcopy].
  unfold thumbnail_try, Image_thumbnail. cbn [fst snd]. subst called_with.
  rewrite lookup_insert_eq.
  destruct w as [zw|qw|zw|qw], h as [zh|qh|zh|qh];
    cbn [is_np_generic item py_int]; unfold Ok, Raise; cbv beta iota zeta;
    try (left; by repeat split);
    right;
    (destruct (pil_thumbnail pil im _) as [e|im'] eqn:Hcall;
       [left; exists e|right; exists im']);
    (split; [done|]); (split; [done|]); cbv beta iota zeta;
    by rewrite ?insert_insert_eq.
Qed.

(** A numpy width with a Python float height: the conversion fails on
    the height. *)
Lemma thumbnail_reports_failure_witness :
  let thumb := fresh (dom sample_store) in
  let called_with :=
    if is_np_generic (NpInt 300)
    then (PyInt (py_int (NpInt 300)), PyInt (py_int (PyFloat 300)))
    else (NpInt 300, PyFloat 300) in
  (is_np_generic (NpInt 300) = true ∧ is_np_generic (PyFloat 300) = false ∧
   thumbnail reference_pillow (Some 1%positive) (Some (NpInt 300, PyFloat 300)) sample_store
   = (Raise (RuntimeError (NpInt 300, PyFloat 300) TyInt (type_of (PyFloat 300))
               AttributeError),
      <[thumb := sample_image]> sample_store)) ∨
  (∃ cause : exn,
     (is_np_generic (NpInt 300) = true → is_np_generic (PyFloat 300) = true) ∧
     pil_thumbnail reference_pillow sample_image called_with = Raise cause ∧
     thumbnail reference_pillow (Some 1%positive) (Some (NpInt 300, PyFloat 300)) sample_store
     = (Raise (RuntimeError (NpInt 300, PyFloat 300)
                 (type_of (fst called_with)) (type_of (snd called_with)) cause),
        <[thumb := sample_image]> sample_store)) ∨
  (∃ im' : Image,
     (is_np_generic (NpInt 300) = true → is_np_generic (PyFloat 300) = true) ∧
     pil_thumbnail reference_pillow sample_image called_with = Ok im' ∧
     thumbnail reference_pillow (Some 1%positive) (Some (NpInt 300, PyFloat 300)) sample_store
     = (Ok thumb, <[thumb := im']> sample_store)).
Proof.
  apply (thumbnail_reports_failure reference_pillow sample_store 1%positive sample_image
           (NpInt 300) (PyFloat 300)).
  reflexivity.
Defined.

(** X3: a call of [detect] on an image and a tensor shape of at least one
    pixel each way leaves the image object it was given as it was,
    whether it returns or the ranking loop raises. *)
Theorem detect_keeps_image (pil : Pillow) (argsort : list Q → list nat)
    (self : TFImageDetection) (σ : store)
    (image : ref) (im : Image) (n c vh vw : pyval) (W H : Z) :
  PillowContract pil →
  σ !! image = Some im →
  1 ≤ width im → 1 ≤ height im →
  input_shape (_tfengine self) = (n, vh, vw, c) →
  (vw, vh) = (PyInt W, PyInt H) ∨ (vw, vh) = (NpInt W, NpInt H) →
  1 ≤ W → 1 ≤ H →
  snd (detect pil argsort self (Some image) σ) !! image = Some im.
Proof.
  intros Hpil Him Hw Hh Hshape Hkind HW HH.
  destruct (detect_spec pil argsort self σ image im n c vh vw W H
              Hpil Him Hw Hh Hshape Hkind HW HH)
    as (thumbnail & new_im & thumb & padded & σ' & _ & _ & Hkeep & _ & _ & _ & _ & _ & Hrun).
  rewrite Hrun. by destruct (detect_rank _ _ _ _ _).
Qed.

(** A call in which the ranking loop raises. *)
Lemma detect_keeps_image_witness :
  snd (detect reference_pillow reference_argsort
         (sample_detector 3 sparse_labels (one_candidate 1)) (Some 1%positive) sample_store)
    !! 1%positive = Some sample_image.
Proof.
  apply (detect_keeps_image reference_pillow reference_argsort
           (sample_detector 3 sparse_labels (one_candidate 1))
           sample_store 1%positive sample_image
           (NpInt 1) (NpInt 3) (NpInt 300) (NpInt 300) 300 300
           reference_pillow_contract).
  - reflexivity.
  - vm_compute. discriminate.
  - vm_compute. discriminate.
  - reflexivity.
  - by right.
  - lia.
  - lia.
Defined.

(** ** The pattern of the label loader *)

Section Quantifiers.

Context {A : Type}.
Variable cls : ascii → bool.

(** What a quantifier hands to its continuation is a split of the text
    after a run of characters of its class. *)
Lemma re_star_sound (s : text) (k : text → text → option A) (r : A) :
  re_star cls s k = Some r →
  ∃ taken rest, s = taken ++ rest ∧ Forall (λ c, cls c = true) taken ∧ k taken rest = Some r.
Proof.
  revert k. induction s as [|c s IH]; intros k; simpl.
  - intros Hk. by exists [], [].
  - destruct (cls c) eqn:Hc; [|intros Hk; by exists [], (c :: s)].
    destruct (re_star cls s _) as [r'|] eqn:Hrec.
    + intros [= ->]. apply IH in Hrec as (taken & rest & -> & Hall & Hk).
      exists (c :: taken), rest. repeat split; [by constructor|done].
    + intros Hk. by exists [], (c :: s).
Qed.

Lemma re_plus_sound (s : text) (k : text → text → option A) (r : A) :
  re_plus cls s k = Some r →
  ∃ taken rest, s = taken ++ rest ∧ taken ≠ [] ∧
                Forall (λ c, cls c = true) taken ∧ k taken rest = Some r.
Proof.
  unfold re_plus. destruct s as [|c s]; [done|].
  destruct (cls c) eqn:Hc; [|done].
  intros Hrec. apply re_star_sound in Hrec as (taken & rest & -> & Hall & Hk).
  exists (c :: taken), rest. repeat split; [done|by constructor|done].
Qed.

(** The longest run is the one kept when the continuation accepts it. *)
Lemma re_star_longest (run rest : text) (k : text → text → option A) (r : A) :
  Forall (λ c, cls c = true) run →
  (∀ c, head rest = Some c → cls c = false) →
  k run rest = Some r →
  re_star cls (run ++ rest) k = Some r.
Proof.
  intros Hrun Hrest. revert k. induction Hrun as [|c run Hc Hrun IH]; intros k Hk; simpl.
  - destruct rest as [|c rest]; [done|]. simpl. by rewrite (Hrest c).
  - rewrite Hc. by rewrite (IH (λ taken rest0, k (c :: taken) rest0)).
Qed.

Lemma re_plus_longest (run rest : text) (k : text → text → option A) (r : A) :
  run ≠ [] →
  Forall (λ c, cls c = true) run →
  (∀ c, head rest = Some c → cls c = false) →
  k run rest = Some r →
  re_plus cls (run ++ rest) k = Some r.
Proof.
  intros Hne Hrun Hrest Hk. destruct run as [|c run]; [done|].
  apply Forall_cons in Hrun as [Hc Hrun]. simpl. rewrite Hc.
  by apply re_star_longest.
Qed.

End Quantifiers.

Lemma label_pattern_match_inv (line num txt : text) :
  label_pattern_match line = Some (num, txt) →
  ∃ ws rest : text,
    line = ws ++ num ++ txt ++ rest ∧
    Forall (λ c, isspace c = true) ws ∧
    num ≠ [] ∧ Forall (λ c, isdigit c = true) num ∧
    txt ≠ [] ∧ Forall (λ c, not_newline c = true) txt.
Proof.
  unfold label_pattern_match. intros H.
  apply re_star_sound in H as (ws & rest1 & -> & Hws & H).
  apply re_plus_sound in H as (num' & rest2 & -> & Hnum0 & Hnum & H).
  apply re_plus_sound in H as (txt' & rest3 & -> & Htxt0 & Htxt & [= <- <-]).
  by exists ws, rest3.
Qed.

Lemma isdigit_not_space (c : ascii) : isdigit c = true → isspace c = false.
Proof.
  unfold isdigit, isspace. generalize (code_point c) as n. intros n H.
  apply andb_true_iff in H as [H1 H2].
  apply N.leb_le in H1, H2.
  repeat (apply orb_false_iff; split); try apply andb_false_iff.
  - right. apply N.leb_gt. lia.
  - right. apply N.leb_gt. lia.
  - apply N.eqb_neq. lia.
  - apply N.eqb_neq. lia.
Qed.

(** On whitespace, digits, a text that does not start with a digit and
    runs to the end of the line, the two groups are the digits and the
    text. *)
Lemma label_pattern_match_line (ws num txt rest : text) :
  Forall (λ c, isspace c = true) ws →
  num ≠ [] → Forall (λ c, isdigit c = true) num →
  txt ≠ [] → Forall (λ c, not_newline c = true) txt →
  (∀ c, head txt = Some c → isdigit c = false) →
  (∀ c, head rest = Some c → not_newline c = false) →
  label_pattern_match (ws ++ num ++ txt ++ rest) = Some (num, txt).
Proof.
  intros Hws Hnum0 Hnum Htxt0 Htxt Hhead Hrest. unfold label_pattern_match.
  apply re_star_longest; [done| |].
  - intros c Hc. destruct num as [|d num]; [done|]. simpl in Hc. injection Hc as <-.
    apply isdigit_not_space. by apply Forall_cons in Hnum as [? _].
  - apply re_plus_longest; [done|done| |].
    + intros c Hc. apply Hhead. by destruct txt.
    + by apply re_plus_longest.
Qed.

(** X4: when the pattern of the loader matches a line, the line is
    whitespace, then the first group, then the second group, then a rest;
    the first group is one or more digits, and the second group is one or
    more characters none of which is a line feed. *)
Theorem label_pattern_match_sound (line num txt : text) :
  label_pattern_match line = Some (num, txt) →
  ∃ ws rest : text,
    line = ws ++ num ++ txt ++ rest ∧
    Forall (λ c, isspace c = true) ws ∧
    num ≠ [] ∧ Forall (λ c, isdigit c = true) num ∧
    txt ≠ [] ∧ Forall (λ c, not_newline c = true) txt.
Proof. apply label_pattern_match_inv. Qed.

(** The line "  12 cat". *)
Lemma label_pattern_match_sound_witness :
  ∃ ws rest : text,
    list_ascii_of_string "  12 cat" =
      ws ++ list_ascii_of_string "12" ++ list_ascii_of_string " cat" ++ rest ∧
    Forall (λ c, isspace c = true) ws ∧
    list_ascii_of_string "12" ≠ [] ∧
    Forall (λ c, isdigit c = true) (list_ascii_of_string "12") ∧
    list_ascii_of_string " cat" ≠ [] ∧
    Forall (λ c, not_newline c = true) (list_ascii_of_string " cat").
Proof.
  apply (label_pattern_match_sound (list_ascii_of_string "  12 cat")
           (list_ascii_of_string "12") (list_ascii_of_string " cat")).
  reflexivity.
Defined.

(** X5: a line made of whitespace, digits, a text that does not start
    with a digit and holds no line feed, and then a line feed or nothing,
    is accepted: the loader binds the integer the digits spell, all of
    them, to the text with the whitespace at its two ends removed. *)
Theorem load_label_line_well_formed (m : gmap Z string) (ws num txt rest : text) :
  Forall (λ c, isspace c = true) ws →
  num ≠ [] → Forall (λ c, isdigit c = true) num →
  txt ≠ [] → Forall (λ c, not_newline c = true) txt →
  (∀ c, head txt = Some c → isdigit c = false) →
  (∀ c, head rest = Some c → not_newline c = false) →
  load_label_line m (ws ++ num ++ txt ++ rest) =
  Ok (<[int_of_digits num := string_of_list_ascii (strip txt)]> m).
Proof.
  intros. unfold load_label_line. by rewrite label_pattern_match_line.
Qed.

(** The line "  12 cat " with its line feed: 12 is bound to "cat". *)
Lemma load_label_line_well_formed_witness :
  load_label_line ∅
    (list_ascii_of_string "  " ++ list_ascii_of_string "12" ++
     list_ascii_of_string " cat " ++ [newline]) =
  Ok (<[int_of_digits (list_ascii_of_string "12")
        := string_of_list_ascii (strip (list_ascii_of_string " cat "))]> ∅).
Proof.
  apply (load_label_line_well_formed ∅ (list_ascii_of_string "  ")
           (list_ascii_of_string "12") (list_ascii_of_string " cat ") [newline]).
  - repeat constructor.
  - discriminate.
  - repeat constructor.
  - discriminate.
  - repeat constructor.
  - intros c Hc. injection Hc as <-. reflexivity.
  - intros c Hc. injection Hc as <-. reflexivity.
Defined.

(** ** What the loader raises, and what it returns *)



(** ** The entries of the label map *)

Lemma digit_value_range (c : ascii) : isdigit c = true → 0 ≤ digit_value c ≤ 9.
Proof.
  unfold isdigit, digit_value. intros H. apply andb_true_iff in H as [H1 H2].
  apply N.leb_le in H1, H2. lia.
Qed.

Lemma fold_digits_nonneg (num : text) (acc : Z) :
  Forall (λ c, isdigit c = true) num → 0 ≤ acc →
  0 ≤ fold_left (λ acc c, 10 * acc + digit_value c) num acc.
Proof.
  intros Hnum. revert acc. induction Hnum as [|c num Hc Hnum IH]; intros acc Hacc; simpl.
  - done.
  - apply IH. pose proof (digit_value_range c Hc). lia.
Qed.

Lemma int_of_digits_nonneg (num : text) :
  Forall (λ c, isdigit c = true) num → 0 ≤ int_of_digits num.
Proof. intros Hnum. by apply fold_digits_nonneg. Qed.

Lemma lstrip_idemp (s : text) : lstrip (lstrip s) = lstrip s.
Proof.
  induction s as [|c s IH]; simpl; [done|].
  destruct (isspace c) eqn:Hc; [done|]. simpl. by rewrite Hc.
Qed.

Lemma lstrip_snoc (s : text) (c : ascii) :
  isspace c = false → lstrip (s ++ [c]) = lstrip s ++ [c].
Proof.
  intros Hc. induction s as [|d s IH]; simpl; [by rewrite Hc|].
  by destruct (isspace d).
Qed.

Lemma lstrip_length (s : text) : (length (lstrip s) ≤ length s)%nat.
Proof.
  induction s as [|d s IH]; simpl; [done|]. destruct (isspace d); simpl; lia.
Qed.

Lemma rstrip_idemp (s : text) : rstrip (rstrip s) = rstrip s.
Proof. unfold rstrip. by rewrite rev_involutive, lstrip_idemp. Qed.

(** Stripping the end of a text puts no whitespace at its start. *)
Lemma lstrip_rstrip (s : text) : lstrip s = s → lstrip (rstrip s) = rstrip s.
Proof.
  destruct s as [|c s]; [done|]. simpl.
  destruct (isspace c) eqn:Hc.
  - intros Heq. exfalso.
    pose proof (lstrip_length s) as Hlen. rewrite Heq in Hlen. simpl in Hlen. lia.
  - intros _. unfold rstrip. simpl. rewrite lstrip_snoc by done.
    rewrite rev_app_distr. simpl. by rewrite Hc.
Qed.

Lemma strip_trimmed (s : text) : strip (strip s) = strip s.
Proof.
  unfold strip. rewrite (lstrip_rstrip (lstrip s)) by apply lstrip_idemp.
  apply rstrip_idemp.
Qed.

(** An entry of the map the loop returns was in the map it started from,
    or comes from one of the lines. *)
Lemma load_label_lines_entries (m m' : gmap Z string) (lines : list text)
    (c : Z) (label : string) :
  load_label_lines m lines = Ok m' →
  m' !! c = Some label →
  m !! c = Some label ∨ label_entry lines c label.
Proof.
  revert m. induction lines as [|l lines IH]; intros m Hload Hc; simpl in Hload.
  - injection Hload as <-. by left.
  - unfold load_label_line in Hload.
    destruct (label_pattern_match l) as [[num txt]|] eqn:Hl; simpl in Hload; [|done].
    destruct (IH _ Hload Hc) as [Hm|(line & num' & txt' & Hin & Hmatch & -> & ->)].
    + destruct (decide (int_of_digits num = c)) as [<-|Hne].
      * rewrite lookup_insert_eq in Hm. injection Hm as <-.
        right. exists l, num, txt. repeat split; [by left|done].
      * rewrite lookup_insert_ne in Hm by done. by left.
    + right. exists line, num', txt'. repeat split; [by right|done].
Qed.

(** X7: every entry of a label map that [load_labels] returns comes from
    a line of the file: its code is the integer the first group of the
    line spells, and is not negative, and its label is the second group
    of the line with the whitespace at its two ends removed, so that
    stripping it again changes nothing. *)
Theorem load_labels_entries (fs : string → option file) (label_path : option string)
    (m : gmap Z string) (c : Z) (label : string) :
  load_labels fs label_path = Ok m →
  m !! c = Some label →
  0 ≤ c ∧
  strip (list_ascii_of_string label) = list_ascii_of_string label ∧
  ∃ (path : string) (content : text),
    label_path = Some path ∧ fs path = Some (Decoded content) ∧
    label_entry (readlines content) c label.
Proof.
  unfold load_labels. intros Hload Hc.
  destruct label_path as [path|]; [|done].
  destruct (negb (path =? "")%string); simpl in Hload; [|done].
  destruct (fs path) as [[content|]|] eqn:Hfs; [|done|done].
  destruct (load_label_lines_entries _ _ _ _ _ Hload Hc)
    as [Hempty|(line & num & txt & Hin & Hmatch & -> & ->)]; [done|].
  destruct (label_pattern_match_inv _ _ _ Hmatch) as (ws & rest & _ & _ & _ & Hnum & _ & _).
  split; [by apply int_of_digits_nonneg|]. split.
  - rewrite list_ascii_of_string_of_list_ascii. apply strip_trimmed.
  - exists path, content. repeat split; try done. by exists line, num, txt.
Qed.

(** The entry of the code 1 in the map of the lines "0 background" and
    "1   person". *)
Lemma load_labels_entries_witness :
  let fs := λ _ : string, Some (Decoded (list_ascii_of_string "0 background
1   person
")) in
  0 ≤ 1 ∧
  strip (list_ascii_of_string "person") = list_ascii_of_string "person" ∧
  ∃ (path : string) (content : text),
    Some "labels.txt"%string = Some path ∧ fs path = Some (Decoded content) ∧
    label_entry (readlines content) 1 "person".
Proof.
  apply (load_labels_entries
           (λ _ : string, Some (Decoded (list_ascii_of_string "0 background
1   person
"))) (Some "labels.txt"%string) sample_labels 1 "person"%string).
  - reflexivity.
  - reflexivity.
Defined.

(** ** Reading back a label file *)

Lemma isdigit_inline (c : ascii) : isdigit c = true → inline c = true.
Proof.
  unfold isdigit, inline. generalize (code_point c) as n. intros n H.
  apply andb_true_iff in H as [H1 H2]. apply N.leb_le in H1, H2.
  apply andb_true_iff. split; apply negb_true_iff, N.eqb_neq; lia.
Qed.

Lemma inline_not_newline (c : ascii) : inline c = true → not_newline c = true.
Proof. unfold inline, not_newline. by intros [H _]%andb_true_iff. Qed.

(** [readlines] cuts after the first line feed when no line ending comes
    before it. *)
Lemma readlines_line (l rest : text) :
  Forall (λ c, inline c = true) l →
  readlines (l ++ newline :: rest) = (l ++ [newline]) :: readlines rest.
Proof.
  induction 1 as [|c l Hc Hl IH]; [done|].
  change ((c :: l) ++ newline :: rest) with (c :: (l ++ newline :: rest)).
  cbn [readlines]. fold readlines.
  apply andb_true_iff in Hc as [H10 H13].
  apply negb_true_iff in H10, H13. rewrite H10, H13.
  by rewrite IH.
Qed.

Lemma readlines_label_file (entries : list (text * text)) :
  Forall well_formed_entry entries →
  readlines (label_file entries) = map label_line entries.
Proof.
  induction 1 as [|[num txt] entries (_ & Hnum & _ & Htxt & _) Hall IH]; [done|].
  unfold label_file. simpl. unfold label_line at 1. simpl.
  rewrite <- !app_assoc. rewrite (app_assoc num txt). simpl.
  rewrite readlines_line.
  - fold (label_file entries). rewrite IH. unfold label_line at 1. simpl.
    by rewrite <- app_assoc.
  - apply Forall_app. split; [|done].
    eapply Forall_impl; [exact Hnum|]. apply isdigit_inline.
Qed.

Lemma load_label_lines_label_file (m : gmap Z string) (entries : list (text * text)) :
  Forall well_formed_entry entries →
  load_label_lines m (map label_line entries) =
  Ok (fold_left (λ m entry, <[int_of_digits (fst entry)
                              := string_of_list_ascii (strip (snd entry))]> m)
                entries m).
Proof.
  intros Hall. revert m.
  induction Hall as [|[num txt] entries (Hnum0 & Hnum & Htxt0 & Htxt & Hhead) Hall IH];
    intros m; [done|].
  cbn [fst snd] in *.
  assert (Hline : load_label_line m (label_line (num, txt))
                  = Ok (<[int_of_digits num := string_of_list_ascii (strip txt)]> m)).
  { pose proof (label_pattern_match_line [] num txt [newline]) as Hmatch.
    cbn [app] in Hmatch. unfold load_label_line, label_line. cbn [fst snd].
    rewrite Hmatch; try done.
    - eapply Forall_impl; [exact Htxt|]. apply inline_not_newline.
    - by intros c [= <-]. }
  cbn [map load_label_lines fold_left]. rewrite Hline. apply IH.
Qed.

(** X8: a file written with one line per entry, each line the digits of
    the code, a text that does not start with a digit and holds no line
    ending, and a line feed, is read back as the dict of these entries:
    [readlines] and the pattern cut the file where it was put
    together. *)
Theorem load_labels_label_file (fs : string → option file) (path : string)
    (entries : list (text * text)) :
  path ≠ ""%string →
  Forall well_formed_entry entries →
  fs path = Some (Decoded (label_file entries)) →
  load_labels fs (Some path) = Ok (labels_of entries).
Proof.
  intros Hpath Hall Hfs. unfold load_labels.
  destruct (String.eqb_spec path ""); [done|]. simpl. rewrite Hfs.
  rewrite readlines_label_file by done. by apply load_label_lines_label_file.
Qed.

(** The file of the sample entries. *)
Lemma load_labels_label_file_witness :
  load_labels (λ _, Some (Decoded (label_file sample_entries))) (Some "labels.txt"%string)
  = Ok (labels_of sample_entries).
Proof.
  apply (load_labels_label_file (λ _, Some (Decoded (label_file sample_entries))) "labels.txt"
           sample_entries).
  - discriminate.
  - repeat (constructor;
            [repeat split; try discriminate; try (repeat constructor);
             intros c Hc; injection Hc as <-; reflexivity|]).
    constructor.
  - reflexivity.
Defined.

(** ** Objects the methods leave alone *)

Ltac mred := unfold Ok, Raise; cbv beta iota zeta.

Lemma lookup_insert_fresh (σ : store) (r : ref) (x y : Image) :
  σ !! r = Some x → <[fresh (dom σ) := y]> σ !! r = Some x.
Proof.
  intros Hr. rewrite lookup_insert_ne; [done|].
  intros Heq. assert (Hf : σ !! fresh (dom σ) = None) by (apply not_elem_of_dom, is_fresh).
  rewrite Heq in Hf. congruence.
Qed.

Lemma keeps_ret {A} (a : A) : keeps_objects (ret a).
Proof. by intros σ r x Hr. Qed.

Lemma keeps_raise {A} (e : exn) : keeps_objects (raise (A := A) e).
Proof. by intros σ r x Hr. Qed.

Lemma keeps_lift {A} (a : result A) : keeps_objects (lift a).
Proof. by intros σ r x Hr. Qed.

Lemma keeps_assert_given {A} (a : option A) : keeps_objects (assert_given a).
Proof. destruct a; [apply keeps_ret|apply keeps_raise]. Qed.

Lemma keeps_bind {A B} (m : M A) (k : A → M B) :
  keeps_objects m → (∀ a, keeps_objects (k a)) → keeps_objects (bind m k).
Proof.
  intros Hm Hk σ r x Hr. unfold bind. specialize (Hm σ r x Hr).
  destruct (m σ) as [[e|a] σ1]; simpl in *; [done|]. by apply Hk.
Qed.

Lemma keeps_Image_size (image : ref) : keeps_objects (Image_size image).
Proof. intros σ r x Hr. unfold Image_size. by destruct (σ !! image). Qed.

Lemma keeps_Image_load (image : ref) : keeps_objects (Image_load image).
Proof. intros σ r x Hr. unfold Image_load. by destruct (σ !! image). Qed.

Lemma keeps_Image_copy (image : ref) : keeps_objects (Image_copy image).
Proof.
  intros σ r x Hr. unfold Image_copy.
  destruct (σ !! image); simpl; [by apply lookup_insert_fresh|done].
Qed.

Lemma keeps_ImageOps_expand (pil : Pillow) (image : ref)
    (border : pyval * pyval * pyval * pyval) :
  keeps_objects (ImageOps_expand pil image border).
Proof.
  intros σ r x Hr. unfold ImageOps_expand.
  destruct (σ !! image) as [im|]; [|done].
  destruct (pil_expand pil im border); simpl; [done|by apply lookup_insert_fresh].
Qed.

(** The [try] block of [thumbnail] changes no object but the copy. *)
Lemma thumbnail_try_frame (pil : Pillow) (thumb : ref) (w h : pyval) (σ : store)
    (r : ref) (x : Image) :
  r ≠ thumb → σ !! r = Some x →
  snd (thumbnail_try pil thumb w h σ) !! r = Some x.
Proof.
  intros Hne Hr. unfold thumbnail_try, Image_thumbnail.
  destruct (is_np_generic w); [destruct (item w); [done|]; destruct (item h); [done|]|];
    (destruct (σ !! thumb); [|done]);
    (destruct (pil_thumbnail pil _ _); simpl; [done|by rewrite lookup_insert_ne]).
Qed.

Lemma keeps_thumbnail (pil : Pillow) (image : option ref)
    (desired_size : option (pyval * pyval)) :
  keeps_objects (thumbnail pil image desired_size).
Proof.
  intros σ r x Hr. unfold thumbnail, bind, assert_given, ret, raise, Ok, Raise.
  destruct image as [image|]; [|by simpl].
  destruct desired_size as [desired_size|]; [|by simpl].
  unfold Image_copy, Ok, Raise. destruct (σ !! image) as [im|] eqn:Him; [|by simpl].
  cbv beta iota zeta. set (thumb := fresh (dom σ)).
  assert (Hne : r ≠ thumb).
  { intros ->. assert (Hf : σ !! thumb = None) by (apply not_elem_of_dom, is_fresh).
    congruence. }
  pose proof (thumbnail_try_frame pil thumb (fst desired_size) (snd desired_size)
                (<[thumb := im]> σ) r x Hne) as Hframe.
  rewrite lookup_insert_ne in Hframe by done. specialize (Hframe Hr).
  destruct (thumbnail_try pil thumb _ _ _) as [[[[e w] h]|u] σ']; exact Hframe.
Qed.

Lemma keeps_resize (pil : Pillow) (image : option ref)
    (desired_size : option (pyval * pyval)) :
  keeps_objects (resize pil image desired_size).
Proof.
  unfold resize.
  repeat first
    [ apply keeps_assert_given | apply keeps_Image_copy | apply keeps_Image_size
    | apply keeps_ImageOps_expand | apply keeps_lift | apply keeps_ret
    | apply keeps_bind; [|intros ?] ].
Qed.

Lemma keeps_detect_prepare (pil : Pillow) (self : TFImageDetection) (image : option ref) :
  keeps_objects (detect_prepare pil self image).
Proof.
  unfold detect_prepare.
  apply keeps_bind; [apply keeps_assert_given|intros given]. cbv zeta.
  destruct (input_shape (_tfengine self)) as [[[n vh] vw] c].
  repeat first
    [ apply keeps_thumbnail | apply keeps_resize | apply keeps_Image_size
    | apply keeps_lift | apply keeps_ret
    | apply keeps_bind; [|intros ?] ].
Qed.

Lemma keeps_detect (pil : Pillow) (argsort : list Q → list nat)
    (self : TFImageDetection) (image : option ref) :
  keeps_objects (detect pil argsort self image).
Proof.
  unfold detect.
  apply keeps_bind;
    [apply keeps_detect_prepare|intros [[[thumbnail new_im] w_factor] h_factor]].
  apply keeps_bind; [apply keeps_Image_load|intros padded].
  apply keeps_bind; [apply keeps_lift|intros inference_result]. apply keeps_ret.
Qed.

(** X9: whatever Pillow does and whatever the arguments are, [thumbnail]
    changes no image object that exists when it is called, whether it
    returns or raises: it works on a copy. *)
Theorem thumbnail_keeps_store (pil : Pillow) (image : option ref)
    (desired_size : option (pyval * pyval)) (σ : store) (r : ref) (x : Image) :
  σ !! r = Some x →
  snd (thumbnail pil image desired_size σ) !! r = Some x.
Proof. apply keeps_thumbnail. Qed.

(** A call in which Pillow fails. *)
Lemma thumbnail_keeps_store_witness :
  snd (thumbnail failing_pillow (Some 1%positive) (Some (NpInt 300, NpInt 300)) sample_store)
    !! 1%positive = Some sample_image.
Proof.
  apply (thumbnail_keeps_store failing_pillow (Some 1%positive)
           (Some (NpInt 300, NpInt 300)) sample_store 1%positive sample_image).
  reflexivity.
Defined.

(** X10: when both dimensions of the desired size are numpy scalars,
    Pillow is called on the copy with two Python [int]s, each the numpy
    value truncated towards zero; what Pillow raises is reported with the
    types of the converted values, and the copy is what [thumbnail]
    returns. *)
Theorem thumbnail_numpy_dimensions (pil : Pillow) (σ : store) (image : ref) (im : Image)
    (w h : pyval) :
  σ !! image = Some im →
  is_np_generic w = true → is_np_generic h = true →
  let thumb := fresh (dom σ) in
  thumbnail pil (Some image) (Some (w, h)) σ =
    match pil_thumbnail pil im (PyInt (py_int w), PyInt (py_int h)) with
    | inl e => (Raise (RuntimeError (w, h) TyInt TyInt e), <[thumb := im]> σ)
    | inr im' => (Ok thumb, <[thumb := im']> σ)
    end.
Proof.
  intros Him Hw Hh thumb.
  unfold thumbnail, bind, assert_given, ret, Image_copy, Ok, Raise. rewrite Him. fold thumb.
  unfold thumbnail_try, Image_thumbnail. simpl fst. simpl snd. rewrite Hw.
  destruct w as [| |zw|qw]; try done; destruct h as [| |zh|qh]; try done; simpl;
    rewrite lookup_insert_eq;
    (destruct (pil_thumbnail pil im _); simpl; [done|by rewrite insert_insert_eq]).
Qed.

(** A width of 300.7 as a numpy float and a height of 300 as a numpy
    integer. *)
Lemma thumbnail_numpy_dimensions_witness :
  let thumb := fresh (dom sample_store) in
  thumbnail reference_pillow (Some 1%positive) (Some (NpFloat (3007 # 10), NpInt 300))
    sample_store =
    match pil_thumbnail reference_pillow sample_image
            (PyInt (py_int (NpFloat (3007 # 10))), PyInt (py_int (NpInt 300))) with
    | inl e => (Raise (RuntimeError (NpFloat (3007 # 10), NpInt 300) TyInt TyInt e),
                <[thumb := sample_image]> sample_store)
    | inr im' => (Ok thumb, <[thumb := im']> sample_store)
    end.
Proof.
  apply (thumbnail_numpy_dimensions reference_pillow sample_store 1%positive sample_image
           (NpFloat (3007 # 10)) (NpInt 300)).
  - reflexivity.
  - reflexivity.
  - reflexivity.
Defined.

(** X11: whatever Pillow does and whatever the arguments are, [resize]
    changes no image object that exists when it is called, whether it
    returns or raises. *)
Theorem resize_keeps_store (pil : Pillow) (image : option ref)
    (desired_size : option (pyval * pyval)) (σ : store) (r : ref) (x : Image) :
  σ !! r = Some x →
  snd (resize pil image desired_size σ) !! r = Some x.
Proof. apply keeps_resize. Qed.

(** A call that pads the sample thumbnail. *)
Lemma resize_keeps_store_witness :
  snd (resize reference_pillow (Some 1%positive) (Some (NpInt 300, NpInt 300))
         sample_thumbnail_store)
    !! 1%positive = Some sample_thumbnail.
Proof.
  apply (resize_keeps_store reference_pillow (Some 1%positive)
           (Some (NpInt 300, NpInt 300)) sample_thumbnail_store 1%positive sample_thumbnail).
  reflexivity.
Defined.

(** When [resize] returns, the assertion of line 146 has passed. *)
Lemma resize_Ok_inv (pil : Pillow) (image : option ref)
    (desired_size : option (pyval * pyval)) (σ σ' : store) (new_im : ref) :
  resize pil image desired_size σ = (Ok new_im, σ') →
  ∃ (ds : pyval * pyval) (padded : Image),
    desired_size = Some ds ∧
    σ !! new_im = None ∧
    σ' !! new_im = Some padded ∧
    py_eq_int (width padded) (fst ds) = true ∧
    py_eq_int (height padded) (snd ds) = true.
Proof.
  unfold resize, bind, assert_given, ret, raise, lift, Ok, Raise.
  destruct image as [image|]; [|by simpl].
  destruct desired_size as [ds|]; [|by simpl].
  unfold Image_copy, Ok, Raise. destruct (σ !! image) as [im|] eqn:Him; [|by simpl].
  cbv beta iota zeta. set (σ1 := <[fresh (dom σ) := im]> σ).
  assert (Hthumb : σ1 !! fresh (dom σ) = Some im) by apply lookup_insert_eq.
  unfold Image_size at 1. rewrite Hthumb. mred.
  unfold ImageOps_expand. rewrite Hthumb.
  destruct (pil_expand pil im _) as [e|padded]; [done|]. mred.
  unfold Image_size. rewrite lookup_insert_eq. mred.
  unfold py_assert, size_eq.
  destruct (py_eq_int (fst (im_size padded)) (fst ds)) eqn:Hw; [|done].
  destruct (py_eq_int (snd (im_size padded)) (snd ds)) eqn:Hh; [|done].
  simpl. intros [= <- <-].
  assert (Hf1 : σ1 !! fresh (dom σ1) = None) by (apply not_elem_of_dom, is_fresh).
  exists ds, padded. repeat split; try done.
  - destruct (σ !! fresh (dom σ1)) as [y|] eqn:Hy; [|done].
    pose proof (lookup_insert_fresh σ _ y im Hy) as Hy1. fold σ1 in Hy1. congruence.
  - apply lookup_insert_eq.
Qed.

(** X12: whatever Pillow does, when [resize] returns, what it returns is
    an image object that did not exist before the call and whose width
    and height equal those of the desired size. *)
Theorem resize_returns_desired_size (pil : Pillow) (image : option ref)
    (desired_size : option (pyval * pyval)) (σ σ' : store) (new_im : ref) :
  resize pil image desired_size σ = (Ok new_im, σ') →
  ∃ (ds : pyval * pyval) (padded : Image),
    desired_size = Some ds ∧
    σ !! new_im = None ∧
    σ' !! new_im = Some padded ∧
    py_eq_int (width padded) (fst ds) = true ∧
    py_eq_int (height padded) (snd ds) = true.
Proof. apply resize_Ok_inv. Qed.

(** The sample thumbnail, padded to 300 by 300: the copy is object 2 and
    the padded image object 3. *)
Lemma resize_returns_desired_size_witness :
  ∃ (ds : pyval * pyval) (padded : Image),
    Some (NpInt 300, NpInt 300) = Some ds ∧
    sample_thumbnail_store !! 3%positive = None ∧
    snd (resize reference_pillow (Some 1%positive) (Some (NpInt 300, NpInt 300))
           sample_thumbnail_store) !! 3%positive = Some padded ∧
    py_eq_int (width padded) (fst ds) = true ∧
    py_eq_int (height padded) (snd ds) = true.
Proof.
  apply (resize_returns_desired_size reference_pillow (Some 1%positive)
           (Some (NpInt 300, NpInt 300)) sample_thumbnail_store
           (snd (resize reference_pillow (Some 1%positive) (Some (NpInt 300, NpInt 300))
                   sample_thumbnail_store))
           3%positive).
  reflexivity.
Defined.

(** ** The input tensor *)

Lemma normalize_range (v : Z) :
  0 ≤ v ≤ 255 → (-1 <= normalize false v)%Q ∧ (normalize false v <= 1)%Q.
Proof.
  intros Hv. unfold normalize, Qle, Qdiv, Qminus, Qinv, Qmult, Qplus, Qopp. simpl. lia.
Qed.

(** X13: for a quantized model the input tensor holds the samples of the
    padded image as they are; for a floating model a sample [v] between 0
    and 255 is mapped to [(v - 127.5) / 127.5], which lies between -1 and
    1 and from which [v] can be computed back. *)
Theorem input_data_normalized (im : Image) (x y r g b : Z) :
  getpixel im x y = (r, g, b) →
  0 ≤ r ≤ 255 → 0 ≤ g ≤ 255 → 0 ≤ b ≤ 255 →
  tensor_at (input_data true im) x y = (inject_Z r, inject_Z g, inject_Z b) ∧
  ∃ r' g' b' : Q,
    tensor_at (input_data false im) x y = (r', g', b') ∧
    (-1 <= r' <= 1)%Q ∧ (-1 <= g' <= 1)%Q ∧ (-1 <= b' <= 1)%Q ∧
    (r' * (255 # 2) + (255 # 2) == inject_Z r)%Q ∧
    (g' * (255 # 2) + (255 # 2) == inject_Z g)%Q ∧
    (b' * (255 # 2) + (255 # 2) == inject_Z b)%Q.
Proof.
  intros Hp Hr Hg Hb. simpl. rewrite Hp. split; [done|].
  eexists _, _, _. split; [reflexivity|].
  repeat split; try (by apply normalize_range); unfold normalize; field.
Qed.

(** The sample of the sample image at column 10 and row 20. *)
Lemma input_data_normalized_witness :
  tensor_at (input_data true sample_image) 10 20 = (inject_Z 10, inject_Z 20, inject_Z 0) ∧
  ∃ r' g' b' : Q,
    tensor_at (input_data false sample_image) 10 20 = (r', g', b') ∧
    (-1 <= r' <= 1)%Q ∧ (-1 <= g' <= 1)%Q ∧ (-1 <= b' <= 1)%Q ∧
    (r' * (255 # 2) + (255 # 2) == inject_Z 10)%Q ∧
    (g' * (255 # 2) + (255 # 2) == inject_Z 20)%Q ∧
    (b' * (255 # 2) + (255 # 2) == inject_Z 0)%Q.
Proof.
  apply (input_data_normalized sample_image 10 20 10 20 0).
  - reflexivity.
  - lia.
  - lia.
  - lia.
Defined.

(** ** The window of candidates, for every [top_k] *)

Lemma elem_of_rev {A} (x : A) (l : list A) : x ∈ rev l ↔ x ∈ l.
Proof. rewrite !list_elem_of_In. symmetry. apply in_rev. Qed.

(** In a sorted list, what comes first is related to what comes later. *)
Lemma StronglySorted_app_inv {A} (R : A → A → Prop) (l1 l2 : list A) (x y : A) :
  StronglySorted R (l1 ++ l2) → x ∈ l1 → y ∈ l2 → R x y.
Proof.
  induction l1 as [|z l1 IH]; simpl; intros Hs Hx Hy.
  - by apply elem_of_nil in Hx.
  - apply StronglySorted_inv in Hs as [Hs Hall].
    apply elem_of_cons in Hx as [->|Hx]; [|by apply IH].
    rewrite List.Forall_forall in Hall. apply Hall.
    apply list_elem_of_In. apply elem_of_app. by right.
Qed.

Section Window.

Variable argsort : list Q → list nat.
Variable self : TFImageDetection.
Variable out : OutputTensors.
Hypothesis Hargsort : ArgsortContract argsort.

(** The window is the end of the sorted indices, reversed. *)
Lemma top_k_indices_drop :
  top_k_indices argsort self out =
  rev (drop (slice_bound (length (argsort (considered_scores out)))
                         (-1 * top_k (_tfengine self)))
            (argsort (considered_scores out))).
Proof. reflexivity. Qed.

Lemma argsort_length : length (argsort (considered_scores out)) = length (considered_scores out).
Proof.
  destruct (Hargsort (considered_scores out)) as [Hperm _]. by rewrite Hperm, length_seq.
Qed.

Lemma argsort_NoDup : NoDup (argsort (considered_scores out)).
Proof.
  destruct (Hargsort (considered_scores out)) as [Hperm _]. rewrite Hperm. apply NoDup_seq.
Qed.

Lemma argsort_range (i : nat) :
  i ∈ argsort (considered_scores out) ↔ (i < length (considered_scores out))%nat.
Proof.
  destruct (Hargsort (considered_scores out)) as [Hperm _].
  rewrite Hperm, elem_of_seq. lia.
Qed.

Lemma top_k_indices_argsort (i : nat) :
  i ∈ top_k_indices argsort self out → i ∈ argsort (considered_scores out).
Proof.
  rewrite top_k_indices_drop, elem_of_rev. intros Hi.
  eapply elem_of_sublist; [done|apply sublist_drop].
Qed.

Lemma considered_scores_lookup (i : nat) (s : Q) :
  considered_scores out !! i = Some s → scores out !! i = Some s.
Proof.
  unfold considered_scores, py_slice_to. intros H.
  by apply lookup_take_Some in H as [H _].
Qed.

Lemma top_k_indices_scored (i : nat) :
  i ∈ top_k_indices argsort self out →
  ∃ s, considered_scores out !! i = Some s ∧ scores out !! i = Some s.
Proof.
  intros Hi. apply top_k_indices_argsort, argsort_range in Hi.
  destruct (lookup_lt_is_Some_2 (considered_scores out) i Hi) as [s Hs].
  exists s. split; [done|by apply considered_scores_lookup].
Qed.

Lemma top_k_indices_NoDup : NoDup (top_k_indices argsort self out).
Proof.
  rewrite top_k_indices_drop. apply NoDup_ListNoDup, NoDup_rev, NoDup_ListNoDup.
  eapply sublist_NoDup; [apply argsort_NoDup|apply sublist_drop].
Qed.

Lemma top_k_indices_length :
  1 ≤ top_k (_tfengine self) →
  Z.of_nat (length (top_k_indices argsort self out))
  = Z.min (top_k (_tfengine self)) (Z.of_nat (length (considered_scores out))).
Proof.
  intros Hk. rewrite top_k_indices_drop, length_rev, length_drop.
  unfold slice_bound. rewrite argsort_length.
  destruct (Z.ltb_spec (-1 * top_k (_tfengine self)) 0); lia.
Qed.

(** A score that was left out of the window is no higher than any score
    in it. *)
Lemma top_k_indices_dominate (i j : nat) (si sj : Q) :
  i ∈ top_k_indices argsort self out →
  j ∉ top_k_indices argsort self out →
  considered_scores out !! i = Some si → considered_scores out !! j = Some sj →
  (sj <= si)%Q.
Proof.
  rewrite top_k_indices_drop, !elem_of_rev.
  set (a := considered_scores out).
  set (m := slice_bound (length (argsort a)) (-1 * top_k (_tfengine self))).
  intros Hi Hj Hsi Hsj.
  destruct (Hargsort a) as [_ Hsorted].
  assert (Hj' : j ∈ take m (argsort a)).
  { assert (Hin : j ∈ argsort a).
    { apply argsort_range. by eapply lookup_lt_Some. }
    rewrite <- (take_drop m (argsort a)) in Hin.
    apply elem_of_app in Hin as [Hin|Hin]; done. }
  apply StronglySorted_map in Hsorted.
  rewrite <- (take_drop m (argsort a)) in Hsorted.
  pose proof (StronglySorted_app_inv _ _ _ j i Hsorted Hj' Hi) as Hle.
  cbv beta in Hle.
  by rewrite (nth_lookup_Some _ _ _ _ Hsi), (nth_lookup_Some _ _ _ _ Hsj) in Hle.
Qed.

End Window.

(** X14: the candidates the loop examines are distinct indices into the
    first [detections_count] scores, each with a score, and with a
    [top_k] of at least one there are exactly as many of them as the
    smaller of [top_k] and the number of these scores. *)
Theorem top_k_indices_distinct (argsort : list Q → list nat)
    (self : TFImageDetection) (out : OutputTensors) :
  ArgsortContract argsort →
  NoDup (top_k_indices argsort self out) ∧
  (∀ i, i ∈ top_k_indices argsort self out →
        ∃ s, considered_scores out !! i = Some s ∧ scores out !! i = Some s) ∧
  (1 ≤ top_k (_tfengine self) →
   Z.of_nat (length (top_k_indices argsort self out))
   = Z.min (top_k (_tfengine self)) (Z.of_nat (length (considered_scores out)))).
Proof.
  intros Hargsort. split; [|split].
  - exact (top_k_indices_NoDup argsort self out Hargsort).
  - intros i Hi. exact (top_k_indices_scored argsort self out Hargsort i Hi).
  - exact (top_k_indices_length argsort self out Hargsort).
Qed.

(** The sample output, with a window of three for two scores. *)
Lemma top_k_indices_distinct_witness :
  NoDup (top_k_indices reference_argsort
           (sample_detector 3 sample_labels sample_output) sample_output) ∧
  (∀ i, i ∈ top_k_indices reference_argsort
              (sample_detector 3 sample_labels sample_output) sample_output →
        ∃ s, considered_scores sample_output !! i = Some s ∧
             scores sample_output !! i = Some s) ∧
  (1 ≤ top_k (_tfengine (sample_detector 3 sample_labels sample_output)) →
   Z.of_nat (length (top_k_indices reference_argsort
                       (sample_detector 3 sample_labels sample_output) sample_output))
   = Z.min (top_k (_tfengine (sample_detector 3 sample_labels sample_output)))
           (Z.of_nat (length (considered_scores sample_output)))).
Proof.
  apply (top_k_indices_distinct reference_argsort
           (sample_detector 3 sample_labels sample_output) sample_output
           reference_argsort_contract).
Defined.

(** X15: whatever [top_k] is, the window holds the best of the first
    [detections_count] scores: a score among them whose index was left
    out of the window is no higher than the score of any candidate of the
    window. *)
Theorem top_k_indices_best (argsort : list Q → list nat)
    (self : TFImageDetection) (out : OutputTensors) (i j : nat) (sj : Q) :
  ArgsortContract argsort →
  i ∈ top_k_indices argsort self out →
  j ∉ top_k_indices argsort self out →
  considered_scores out !! j = Some sj →
  ∃ si, scores out !! i = Some si ∧ (sj <= si)%Q.
Proof.
  intros Hargsort Hi Hj Hsj.
  destruct (top_k_indices_scored argsort self out Hargsort i Hi) as (si & Hsi & Hsi').
  exists si. split; [done|].
  by eapply (top_k_indices_dominate argsort self out Hargsort i j).
Qed.

(** The sample output with a window of one: candidate 1, of score 0.9, is
    kept, and candidate 0, of score 0.7, is left out. *)
Lemma top_k_indices_best_witness :
  ∃ si, scores sample_output !! 1%nat = Some si ∧ (7 # 10 <= si)%Q.
Proof.
  apply (top_k_indices_best reference_argsort
           (sample_detector 1 sample_labels sample_output) sample_output
           1%nat 0%nat (7 # 10)%Q reference_argsort_contract).
  - vm_compute. left.
  - intros Hin. vm_compute in Hin.
    apply list_elem_of_singleton in Hin. discriminate.
  - reflexivity.
Defined.

(** ** The loop as a filter *)

Section Filter.

Variable labels : gmap Z string.
Variable out : OutputTensors.
Variables threshold w_factor h_factor : Q.

Lemma emitted_passes (i : nat) (d : Detection) :
  emitted labels out threshold w_factor h_factor i d → passes labels out threshold i = true.
Proof.
  intros (confidence & code & label & box & Hs & Hthr & Hc & Hlt & _).
  unfold passes. rewrite Hs, Hc. apply andb_true_intro. split.
  - by apply Qle_bool_iff.
  - by apply Z.ltb_lt.
Qed.

Lemma rejected_passes (i : nat) :
  rejected labels out threshold i → passes labels out threshold i = false.
Proof.
  intros (confidence & Hs & Hwhy). unfold passes. rewrite Hs.
  destruct (label_codes out !! i) as [code|] eqn:Hc; [|done].
  apply andb_false_iff. destruct Hwhy as [Hlt|(code' & Hc' & Hge)].
  - left. apply not_true_is_false. intros Hle. apply Qle_bool_iff in Hle.
    by apply Qlt_not_le in Hlt.
  - right. apply Z.ltb_ge. congruence.
Qed.

(** A run of the loop that does not raise appends one detection for each
    index that passes the two tests, in order. *)
Lemma detect_loop_filter (indices : list nat) (acc ds : list Detection) :
  detect_loop labels out threshold w_factor h_factor acc indices = Ok ds →
  ∃ new : list Detection,
    ds = acc ++ new ∧
    Forall2 (emitted labels out threshold w_factor h_factor)
            (List.filter (passes labels out threshold) indices) new.
Proof.
  revert acc. induction indices as [|i indices IH]; intros acc; simpl.
  - intros [= <-]. exists []. by rewrite app_nil_r.
  - destruct (detect_candidate _ _ _ _ _ acc i) as [e|acc'] eqn:Hcand; simpl; [done|].
    intros Hloop. destruct (IH _ Hloop) as (new & -> & Hall).
    destruct (detect_candidate_inv _ _ _ _ _ _ _ _ Hcand) as [[Hrej ->]|(d & Hd & ->)].
    + rewrite (rejected_passes _ Hrej). by exists new.
    + rewrite (emitted_passes _ _ Hd). exists (d :: new).
      split; [by rewrite <- app_assoc|by constructor].
Qed.

(** With every tensor as long as the scores, no negative label code and a
    dense label map, a step of the loop does not raise. *)
Lemma detect_candidate_total (acc : list Detection) (i : nat) :
  dense labels →
  Forall (λ code, 0 ≤ int_of_float code) (label_codes out) →
  (length (scores out) ≤ length (label_codes out))%nat →
  (length (scores out) ≤ length (boxes out))%nat →
  (i < length (scores out))%nat →
  ∃ acc', detect_candidate labels out threshold w_factor h_factor acc i = Ok acc'.
Proof.
  intros Hdense Hcodes Hlc Hlb Hi.
  destruct (lookup_lt_is_Some_2 (scores out) i Hi) as [confidence Hs].
  destruct (lookup_lt_is_Some_2 (label_codes out) i ltac:(lia)) as [code Hc].
  destruct (lookup_lt_is_Some_2 (boxes out) i ltac:(lia)) as [box Hb].
  unfold detect_candidate, index, dict_getitem. rewrite Hs. simpl.
  destruct (Qle_bool threshold confidence); [|by eexists].
  rewrite Hc. simpl.
  destruct (Z.ltb_spec (int_of_float code) (Z.of_nat (size labels))) as [Hlt|Hge];
    [|by eexists].
  assert (Hnn : 0 ≤ int_of_float code).
  { rewrite List.Forall_forall in Hcodes. apply Hcodes, list_elem_of_In.
    by eapply list_elem_of_lookup_2. }
  destruct (Hdense (int_of_float code) ltac:(lia)) as [label Hl].
  rewrite Hl. simpl. rewrite Hb. simpl. by eexists.
Qed.

Lemma detect_loop_total (indices : list nat) (acc : list Detection) :
  dense labels →
  Forall (λ code, 0 ≤ int_of_float code) (label_codes out) →
  (length (scores out) ≤ length (label_codes out))%nat →
  (length (scores out) ≤ length (boxes out))%nat →
  (∀ i, i ∈ indices → (i < length (scores out))%nat) →
  ∃ ds, detect_loop labels out threshold w_factor h_factor acc indices = Ok ds.
Proof.
  intros Hdense Hcodes Hlc Hlb. revert acc.
  induction indices as [|i indices IH]; intros acc Hin; simpl; [by eexists|].
  destruct (detect_candidate_total acc i Hdense Hcodes Hlc Hlb) as [acc' Hacc].
  { apply Hin. by left. }
  rewrite Hacc. simpl. apply IH. intros j Hj. apply Hin. by right.
Qed.

End Filter.

(** X16: when the ranking loop returns, its result holds one detection
    for each candidate of the window that passes the two tests, in the
    order of the window, and nothing else; each carries the score of its
    candidate and the label the map has for the truncated label code of
    its candidate. *)
Theorem detect_rank_filter (argsort : list Q → list nat)
    (self : TFImageDetection) (out : OutputTensors) (w_factor h_factor : Q)
    (inference_result : list Detection) :
  detect_rank argsort self out w_factor h_factor = Ok inference_result →
  Forall2 (λ (i : nat) (d : Detection),
             ∃ code : Q,
               label_codes out !! i = Some code ∧
               _labels self !! int_of_float code = Some (fst (fst d)) ∧
               scores out !! i = Some (confidence_of d))
          (List.filter (passes (_labels self) out (confidence_threshold (_tfengine self)))
                       (top_k_indices argsort self out))
          inference_result.
Proof.
  unfold detect_rank. intros Hloop.
  destruct (detect_loop_filter _ _ _ _ _ _ _ _ Hloop) as (new & -> & Hall).
  simpl. eapply Forall2_impl; [exact Hall|].
  intros i d (confidence & code & label & box & Hs & _ & Hc & _ & Hl & _ & ->).
  by exists code.
Qed.

(** The two detections of the sample output. *)
Lemma detect_rank_filter_witness :
  Forall2 (λ (i : nat) (d : Detection),
             ∃ code : Q,
               label_codes sample_output !! i = Some code ∧
               sample_labels !! int_of_float code = Some (fst (fst d)) ∧
               scores sample_output !! i = Some (confidence_of d))
          (List.filter (passes sample_labels sample_output (6 # 10))
                       (top_k_indices reference_argsort
                          (sample_detector 3 sample_labels sample_output) sample_output))
          sample_result.
Proof.
  apply (detect_rank_filter reference_argsort
           (sample_detector 3 sample_labels sample_output) sample_output 1 (2 # 3)
           sample_result).
  reflexivity.
Defined.

(** X17: on output tensors in which the label codes and the boxes are at
    least as many as the scores and no label code is negative, and with a
    label map that has an entry for every code below its size, the
    ranking loop does not raise. *)
Theorem detect_rank_total (argsort : list Q → list nat)
    (self : TFImageDetection) (out : OutputTensors) (w_factor h_factor : Q) :
  ArgsortContract argsort →
  dense (_labels self) →
  Forall (λ code, 0 ≤ int_of_float code) (label_codes out) →
  (length (scores out) ≤ length (label_codes out))%nat →
  (length (scores out) ≤ length (boxes out))%nat →
  ∃ inference_result, detect_rank argsort self out w_factor h_factor = Ok inference_result.
Proof.
  intros Hargsort Hdense Hcodes Hlc Hlb. unfold detect_rank.
  apply detect_loop_total; try done.
  intros i Hi.
  destruct (top_k_indices_scored argsort self out Hargsort i Hi) as (s & _ & Hs).
  by eapply lookup_lt_Some.
Qed.

(** The sample output and the dense sample label map. *)
Lemma detect_rank_total_witness :
  ∃ inference_result,
    detect_rank reference_argsort (sample_detector 3 sample_labels sample_output)
      sample_output 1 (2 # 3) = Ok inference_result.
Proof.
  apply (detect_rank_total reference_argsort
           (sample_detector 3 sample_labels sample_output) sample_output 1 (2 # 3)
           reference_argsort_contract).
  - intros k Hk. simpl in Hk.
    assert (Hsize : size sample_labels = 2%nat) by reflexivity.
    rewrite Hsize in Hk.
    assert (Hcases : k = 0 ∨ k = 1) by lia.
    destruct Hcases as [-> | ->]; by eexists.
  - repeat constructor; by vm_compute.
  - simpl. lia.
  - simpl. lia.
Defined.

(** ** What [detect] does to the image objects *)

(** X18: whatever Pillow and the engine do and whatever the argument is,
    [detect] changes no image object that exists when it is called,
    whether it returns or raises. *)
Theorem detect_keeps_store (pil : Pillow) (argsort : list Q → list nat)
    (self : TFImageDetection) (image : option ref) (σ : store) (r : ref) (x : Image) :
  σ !! r = Some x →
  snd (detect pil argsort self image σ) !! r = Some x.
Proof. apply keeps_detect. Qed.

(** A call in which Pillow fails. *)
Lemma detect_keeps_store_witness :
  snd (detect failing_pillow reference_argsort
         (sample_detector 3 sample_labels (one_candidate 1)) (Some 1%positive) sample_store)
    !! 1%positive = Some sample_image.
Proof.
  apply (detect_keeps_store failing_pillow reference_argsort
           (sample_detector 3 sample_labels (one_candidate 1)) (Some 1%positive)
           sample_store 1%positive sample_image).
  reflexivity.
Defined.

Lemma bind_Ok_inv {A B} (m : M A) (k : A → M B) (σ σ' : store) (b : B) :
  bind m k σ = (Ok b, σ') →
  ∃ (a : A) (σ1 : store), m σ = (Ok a, σ1) ∧ k a σ1 = (Ok b, σ').
Proof.
  unfold bind. destruct (m σ) as [[e|a] σ1]; [done|]. intros H. by exists a, σ1.
Qed.

Lemma assert_given_Ok_inv {A} (x : option A) (σ σ' : store) (a : A) :
  assert_given x σ = (Ok a, σ') → x = Some a ∧ σ' = σ.
Proof. destruct x; [|done]. by intros [= -> ->]. Qed.

Lemma Image_size_Ok_inv (image : ref) (σ σ' : store) (sz : Z * Z) :
  Image_size image σ = (Ok sz, σ') →
  σ' = σ ∧ ∃ im, σ !! image = Some im ∧ sz = im_size im.
Proof.
  unfold Image_size. destruct (σ !! image) as [im|]; [|done].
  intros [= <- <-]. split; [done|]. by exists im.
Qed.

Lemma Image_load_Ok_inv (image : ref) (σ σ' : store) (im : Image) :
  Image_load image σ = (Ok im, σ') → σ' = σ ∧ σ !! image = Some im.
Proof.
  unfold Image_load. destruct (σ !! image) as [im'|]; [|done]. by intros [= <- <-].
Qed.

Lemma lift_Ok_inv {A} (r : result A) (σ σ' : store) (a : A) :
  lift r σ = (Ok a, σ') → r = Ok a ∧ σ' = σ.
Proof. by intros [= -> ->]. Qed.

Lemma true_div_Ok_inv (a b : Z) (q : Q) : true_div a b = Ok q → b ≠ 0.
Proof. unfold true_div. by destruct (Z.eqb_spec b 0). Qed.

(** When [thumbnail] returns, what it returns is a copy made for the
    call, with the content Pillow gave it. *)
Lemma thumbnail_Ok_inv (pil : Pillow) (image : option ref)
    (desired_size : option (pyval * pyval)) (σ σ' : store) (thumb : ref) :
  thumbnail pil image desired_size σ = (Ok thumb, σ') →
  ∃ (r : ref) (im im' : Image),
    image = Some r ∧ σ !! r = Some im ∧
    σ !! thumb = None ∧ σ' = <[thumb := im']> σ.
Proof.
  unfold thumbnail. intros H.
  apply bind_Ok_inv in H as (r & σ0 & [-> ->]%assert_given_Ok_inv & H).
  apply bind_Ok_inv in H as (ds & σ0 & [-> ->]%assert_given_Ok_inv & H).
  apply bind_Ok_inv in H as (copy & σ1 & Hcopy & H).
  unfold Image_copy in Hcopy. destruct (σ !! r) as [im|] eqn:Him; [|done].
  injection Hcopy as <- <-.
  assert (Hfresh : σ !! fresh (dom σ) = None) by (apply not_elem_of_dom, is_fresh).
  unfold thumbnail_try, Image_thumbnail in H. rewrite lookup_insert_eq in H.
  exists r, im.
  destruct (is_np_generic (fst ds)).
  - destruct (item (fst ds)); [done|]. destruct (item (snd ds)); [done|].
    destruct (pil_thumbnail pil im _) as [e|im']; [done|].
    injection H as <- <-. exists im'. by rewrite insert_insert_eq.
  - destruct (pil_thumbnail pil im _) as [e|im']; [done|].
    injection H as <- <-. exists im'. by rewrite insert_insert_eq.
Qed.

(** X19: whatever Pillow and the engine do, when [detect] returns it was
    given an image object, and the thumbnail and the padded image it
    returns are two different objects that did not exist before the call;
    the padded image has the width and the height of the input tensor,
    and neither is zero. *)
Theorem detect_returns_new_objects (pil : Pillow) (argsort : list Q → list nat)
    (self : TFImageDetection) (image : option ref) (σ σ' : store)
    (thumbnail new_im : ref) (inference_result : list Detection) :
  detect pil argsort self image σ = (Ok (thumbnail, new_im, inference_result), σ') →
  ∃ (r : ref) (thumb padded : Image) (n vh vw c : pyval),
    image = Some r ∧ is_Some (σ !! r) ∧
    input_shape (_tfengine self) = (n, vh, vw, c) ∧
    σ !! thumbnail = None ∧ σ !! new_im = None ∧ thumbnail ≠ new_im ∧
    σ' !! thumbnail = Some thumb ∧ σ' !! new_im = Some padded ∧
    py_eq_int (width padded) vw = true ∧ py_eq_int (height padded) vh = true ∧
    width padded ≠ 0 ∧ height padded ≠ 0.
Proof.
  unfold detect. intros H.
  apply bind_Ok_inv in H as ([[[thumbnail' new_im'] w_factor] h_factor] & σ3 & Hprep & H).
  apply bind_Ok_inv in H as (padded & σ4 & [-> Hpadded]%Image_load_Ok_inv & H).
  apply bind_Ok_inv in H as (res & σ5 & [_ ->]%lift_Ok_inv & H).
  injection H as -> -> -> ->.
  unfold detect_prepare in Hprep.
  apply bind_Ok_inv in Hprep as (r & σ0 & [-> ->]%assert_given_Ok_inv & Hprep).
  cbv zeta in Hprep.
  destruct (input_shape (_tfengine self)) as [[[n vh] vw] c].
  apply bind_Ok_inv in Hprep as (thumbnail' & σ1 & Hthumb & Hprep).
  apply bind_Ok_inv in Hprep as (new_im' & σ2 & Hresize & Hprep).
  apply bind_Ok_inv in Hprep
    as (tsz & σ0 & [-> (thumb & Hthumb2 & ->)]%Image_size_Ok_inv & Hprep).
  apply bind_Ok_inv in Hprep
    as (nsz & σ0 & [-> (padded' & Hpadded2 & ->)]%Image_size_Ok_inv & Hprep).
  apply bind_Ok_inv in Hprep as (wf & σ0 & [Hwf ->]%lift_Ok_inv & Hprep).
  apply bind_Ok_inv in Hprep as (hf & σ0 & [Hhf ->]%lift_Ok_inv & Hprep).
  injection Hprep as -> -> -> -> ->.
  apply thumbnail_Ok_inv in Hthumb as (r' & im & im' & [= <-] & Him & Hfresh & ->).
  apply resize_Ok_inv in Hresize as (ds & padded'' & [= <-] & Hnew & Hnew' & Hw & Hh).
  simpl in Hw, Hh.
  assert (padded'' = padded) as -> by congruence.
  assert (padded' = padded) as -> by congruence.
  exists r, thumb, padded, n, vh, vw, c.
  assert (Hne : thumbnail ≠ new_im).
  { intros ->. by rewrite lookup_insert_eq in Hnew. }
  repeat split; try done.
  - rewrite lookup_insert_ne in Hnew by done. done.
  - by eapply true_div_Ok_inv.
  - by eapply true_div_Ok_inv.
Qed.

(** The sample run: the thumbnail is object 2 and the padded image
    object 4. *)
Lemma detect_returns_new_objects_witness :
  ∃ (r : ref) (thumb padded : Image) (n vh vw c : pyval),
    Some 1%positive = Some r ∧ is_Some (sample_store !! r) ∧
    input_shape (_tfengine (sample_detector 3 sample_labels (one_candidate 1)))
      = (n, vh, vw, c) ∧
    sample_store !! 2%positive = None ∧ sample_store !! 4%positive = None ∧
    2%positive ≠ 4%positive ∧
    snd sample_run !! 2%positive = Some thumb ∧
    snd sample_run !! 4%positive = Some padded ∧
    py_eq_int (width padded) vw = true ∧ py_eq_int (height padded) vh = true ∧
    width padded ≠ 0 ∧ height padded ≠ 0.
Proof.
  eapply (detect_returns_new_objects reference_pillow reference_argsort
            (sample_detector 3 sample_labels (one_candidate 1)) (Some 1%positive)
            sample_store (snd sample_run) 2%positive 4%positive).
  reflexivity.
Defined.

(** ** The timing statistics *)

Lemma Qminus_zero (a b : Q) : (a - b == 0)%Q ↔ (a == b)%Q.
Proof. split; intros H; lra. Qed.

Lemma float_div_nonzero (a b : Q) : ¬ (b == 0)%Q → float_div a b = Ok (a / b)%Q.
Proof.
  intros Hb. unfold float_div.
  destruct (Qeq_bool b 0) eqn:Heq; [|done]. by apply Qeq_bool_iff in Heq.
Qed.

Lemma float_div_zero (a b : Q) : (b == 0)%Q → float_div a b = Raise ZeroDivisionError.
Proof.
  intros Hb. unfold float_div. apply Qeq_bool_iff in Hb. by rewrite Hb.
Qed.

Lemma pipeline_name_of_nonempty (context : option PipeContext) :
  pipeline_name_of context ≠ ""%string.
Proof.
  unfold pipeline_name_of. destruct context as [[[name|]]|]; simpl; try done.
  destruct (String.eqb_spec name ""); done.
Qed.

(** What [_log_stats] does when neither the assertion nor the division
    fails. *)
Lemma log_stats_Ok (context : option PipeContext) (last_time end_time start_time : Q) :
  ¬ (start_time == 0)%Q → ¬ (end_time == last_time)%Q →
  _log_stats context last_time end_time (Some start_time)
  = Ok ({| inf_time := (end_time - start_time) * 1000;
           fps := 1 / (end_time - last_time);
           pipeline_name := pipeline_name_of context |}, end_time).
Proof.
  intros Hstart Hclock. unfold _log_stats.
  destruct (Qeq_bool start_time 0) eqn:Heq; [by apply Qeq_bool_iff in Heq|]. simpl.
  rewrite float_div_nonzero; [done|].
  intros Hz. apply Hclock. by apply Qminus_zero.
Qed.

(** X20: [_log_stats] raises [AssertionError] exactly when the start time
    is missing or zero, and [ZeroDivisionError] exactly when a start time
    that is not zero is given and the clock reads what [last_time] holds;
    in exactly the other cases it returns, and [last_time] becomes the
    reading of the clock. *)
Theorem log_stats_outcome (context : option PipeContext) (last_time end_time : Q)
    (start_time : option Q) :
  (_log_stats context last_time end_time start_time = Raise AssertionError ↔
     start_time = None ∨ ∃ s, start_time = Some s ∧ (s == 0)%Q) ∧
  (_log_stats context last_time end_time start_time = Raise ZeroDivisionError ↔
     ∃ s, start_time = Some s ∧ ¬ (s == 0)%Q ∧ (end_time == last_time)%Q) ∧
  ((∃ stats, _log_stats context last_time end_time start_time = Ok (stats, end_time)) ↔
     ∃ s, start_time = Some s ∧ ¬ (s == 0)%Q ∧ ¬ (end_time == last_time)%Q).
Proof.
  destruct start_time as [s|]; simpl; cycle 1.
  { split; [|split].
    - split; [|done]. intros _. by left.
    - split; [done|]. by intros (s & [=] & _).
    - split; [by intros (stats & [=])|]. by intros (s & [=] & _). }
  destruct (Qeq_dec s 0) as [Hs|Hs].
  - assert (Heq : Qeq_bool s 0 = true) by by apply Qeq_bool_iff.
    rewrite Heq. simpl. split; [|split].
    + split; [|done]. intros _. right. by exists s.
    + split; [done|]. by intros (s' & [= <-] & Hs' & _).
    + split; [by intros (stats & [=])|]. by intros (s' & [= <-] & Hs' & _).
  - assert (Heq : Qeq_bool s 0 = false).
    { apply not_true_is_false. intros H. by apply Qeq_bool_iff in H. }
    destruct (Qeq_dec end_time last_time) as [Hc|Hc].
    + rewrite Heq. simpl. rewrite float_div_zero by (by apply Qminus_zero).
      simpl. split; [|split].
      * split; [done|]. intros [[=]|(s' & [= <-] & Hs')]. done.
      * split; [|done]. intros _. by exists s.
      * split; [by intros (stats & [=])|]. by intros (s' & [= <-] & _ & Hc').
    + pose proof (log_stats_Ok context last_time end_time s Hs Hc) as Hok.
      simpl in Hok. rewrite Hok. split; [|split].
      * split; [done|]. intros [[=]|(s' & [= <-] & Hs')]. done.
      * split; [done|]. by intros (s' & [= <-] & _ & Hc').
      * split; [|by eexists]. intros _. by exists s.
Qed.

(** X21: on a clock that has advanced since [last_time] was set, and with
    a start time that is not zero and not later than the reading of the
    clock, [_log_stats] logs an inference time that is not negative, a
    frame rate that is positive and the inverse of the time since
    [last_time], and a pipeline name that is not empty. *)
Theorem log_stats_advancing (context : option PipeContext)
    (last_time end_time start_time : Q) :
  ¬ (start_time == 0)%Q → (start_time <= end_time)%Q → (last_time < end_time)%Q →
  ∃ stats : Stats,
    _log_stats context last_time end_time (Some start_time) = Ok (stats, end_time) ∧
    (0 <= inf_time stats)%Q ∧
    (0 < fps stats)%Q ∧
    (fps stats * (end_time - last_time) == 1)%Q ∧
    pipeline_name stats ≠ ""%string.
Proof.
  intros Hstart Hle Hlt.
  assert (Hpos : (0 < end_time - last_time)%Q) by lra.
  eexists. split; [apply log_stats_Ok; [done|]|].
  { intros Heq. lra. }
  simpl. repeat split.
  - apply Qmult_le_0_compat; [lra|done].
  - unfold Qdiv. rewrite Qmult_1_l. by apply Qinv_lt_0_compat.
  - field. lra.
  - apply pipeline_name_of_nonempty.
Qed.

(** A call that starts at 2 and ends at 3, one unit after the last one,
    in a pipeline whose context has an empty name. *)
Lemma log_stats_advancing_witness :
  ∃ stats : Stats,
    _log_stats (Some {| unique_pipeline_name := Some ""%string |}) 2 3 (Some (5 # 2))
      = Ok (stats, 3%Q) ∧
    (0 <= inf_time stats)%Q ∧
    (0 < fps stats)%Q ∧
    (fps stats * (3 - 2) == 1)%Q ∧
    pipeline_name stats ≠ ""%string.
Proof.
  apply (log_stats_advancing (Some {| unique_pipeline_name := Some ""%string |})
           2 3 (5 # 2)).
  - intros Hz. vm_compute in Hz. discriminate.
  - vm_compute. discriminate.
  - reflexivity.
Defined.

(** X22: with a start reading that is not zero and an end reading that
    differs from [last_time], the call of [_log_stats] inside [detect]
    changes neither what [detect] returns or raises nor the image
    objects. *)
Theorem detect_logged_agrees (pil : Pillow) (argsort : list Q → list nat)
    (self : TFImageDetection) (context : option PipeContext)
    (start_time end_time last_time : Q) (image : option ref) (σ : store) :
  ¬ (start_time == 0)%Q → ¬ (end_time == last_time)%Q →
  fst (detect_logged pil argsort self context start_time end_time image (σ, last_time))
    = fst (detect pil argsort self image σ) ∧
  fst (snd (detect_logged pil argsort self context start_time end_time image
              (σ, last_time)))
    = snd (detect pil argsort self image σ).
Proof.
  intros Hstart Hclock. unfold detect_logged, detect, bind.
  destruct (detect_prepare pil self image σ)
    as [[e|[[[thumbnail new_im] w_factor] h_factor]] σ1]; [done|].
  destruct (Image_load new_im σ1) as [[e|padded] σ2]; [done|].
  rewrite (log_stats_Ok context last_time end_time start_time Hstart Hclock).
  unfold lift, ret, Ok. cbv beta iota zeta.
  by destruct (detect_rank _ _ _ _ _).
Qed.

(** The sample run, started at 2 and ended at 3, with the last call at
    1. *)
Lemma detect_logged_agrees_witness :
  fst (detect_logged reference_pillow reference_argsort
         (sample_detector 3 sample_labels (one_candidate 1)) None 2 3
         (Some 1%positive) (sample_store, 1%Q))
    = fst (detect reference_pillow reference_argsort
             (sample_detector 3 sample_labels (one_candidate 1)) (Some 1%positive)
             sample_store) ∧
  fst (snd (detect_logged reference_pillow reference_argsort
              (sample_detector 3 sample_labels (one_candidate 1)) None 2 3
              (Some 1%positive) (sample_store, 1%Q)))
    = snd (detect reference_pillow reference_argsort
             (sample_detector 3 sample_labels (one_candidate 1)) (Some 1%positive)
             sample_store).
Proof.
  apply (detect_logged_agrees reference_pillow reference_argsort
           (sample_detector 3 sample_labels (one_candidate 1)) None 2 3 1
           (Some 1%positive) sample_store).
  - intros Hz. vm_compute in Hz. discriminate.
  - intros Hz. vm_compute in Hz. discriminate.
Defined.

(** X23: a call of [detect] that would return raises [ZeroDivisionError]
    instead when the clock reads at the end of the inference what
    [last_time] holds; [last_time] stays as it was, and the thumbnail and
    the padded image have been made. *)
Theorem detect_logged_stalled_clock (pil : Pillow) (argsort : list Q → list nat)
    (self : TFImageDetection) (context : option PipeContext)
    (start_time end_time last_time : Q) (image : option ref) (σ σ' : store)
    (returned : ref * ref * list Detection) :
  detect pil argsort self image σ = (Ok returned, σ') →
  ¬ (start_time == 0)%Q → (end_time == last_time)%Q →
  detect_logged pil argsort self context start_time end_time image (σ, last_time)
  = (Raise ZeroDivisionError, (σ', last_time)).
Proof.
  intros Hdet Hstart Hclock. unfold detect_logged. unfold detect, bind in Hdet.
  destruct (detect_prepare pil self image σ)
    as [[e|[[[thumbnail new_im] w_factor] h_factor]] σ1]; [done|].
  destruct (Image_load new_im σ1) as [[e|padded] σ2]; [done|].
  unfold lift, ret, Ok in Hdet. cbv beta iota zeta in Hdet.
  destruct (detect_rank _ _ _ _ _) as [e|res]; [done|].
  injection Hdet as <- <-.
  unfold _log_stats.
  destruct (Qeq_bool start_time 0) eqn:Heq; [by apply Qeq_bool_iff in Heq|]. simpl.
  rewrite float_div_zero; [done|]. by apply Qminus_zero.
Qed.

(** The sample run, with a clock that reads 3 at the end of the inference
    as it did at the end of the last call. *)
Lemma detect_logged_stalled_clock_witness :
  detect_logged reference_pillow reference_argsort
    (sample_detector 3 sample_labels (one_candidate 1)) None 2 3
    (Some 1%positive) (sample_store, 3%Q)
  = (Raise ZeroDivisionError, (snd sample_run, 3%Q)).
Proof.
  eapply (detect_logged_stalled_clock reference_pillow reference_argsort
            (sample_detector 3 sample_labels (one_candidate 1)) None 2 3 3
            (Some 1%positive) sample_store (snd sample_run)).
  - reflexivity.
  - intros Hz. vm_compute in Hz. discriminate.
  - reflexivity.
Defined.

(** ** A call of [detect] without detections *)


